(** * CampusGuard: the front-end scripts and the incident core

    The repository ships the browser scripts of the dashboard
    ([static/js/main.js], [static/js/sidebar.js]).  They are embedded here as
    state-passing functions over a small model of the JavaScript values and
    of the part of the DOM the scripts touch. *)

From Stdlib Require Import ZArith Lia Bool List String Ascii DecimalString.
From Stdlib Require DecimalPos DecimalZ.
From stdpp Require Import base option list gmap strings.

Open Scope string_scope.
Open Scope Z_scope.
Open Scope list_scope.

(** ** JavaScript values *)

Module JS.

(** Values as far as the scripts can produce them: [undefined], strings,
    and the functions and objects a property read can hand out. *)
Inductive Value :=
| VUndefined
| VString (s : string)
| VFunction (name : string)
| VObject (name : string).

(** [ToBoolean]: [undefined] and the empty string are falsy, every object
    and function is truthy. *)
Definition ToBoolean (v : Value) : bool :=
  match v with
  | VUndefined => false
  | VString s => negb (String.eqb s "")
  | VFunction _ => true
  | VObject _ => true
  end.

(** [a || b] evaluates to [a] when [a] is truthy and to [b] otherwise. *)
Definition or (a b : Value) : Value := if ToBoolean a then a else b.

(** An ordinary object: its own properties in insertion order and its
    prototype, if it has one. *)
Inductive Obj :=
| Root (own : list (string * Value))
| Inherit (own : list (string * Value)) (proto : Obj).

Definition own_properties (o : Obj) : list (string * Value) :=
  match o with
  | Root own => own
  | Inherit own _ => own
  end.

Fixpoint assoc (k : string) (ps : list (string * Value)) : option Value :=
  match ps with
  | [] => None
  | (k', v) :: rest => if String.eqb k k' then Some v else assoc k rest
  end.

(** [o[k]]: the own property if there is one, else the prototype's, and
    [undefined] at the end of the chain. *)
Fixpoint Get (o : Obj) (k : string) : Value :=
  match o with
  | Root own =>
      match assoc k own with
      | Some v => v
      | None => VUndefined
      end
  | Inherit own proto =>
      match assoc k own with
      | Some v => v
      | None => Get proto k
      end
  end.

(** The properties every object literal inherits from [Object.prototype]
    (ECMAScript 20.1.3 and Annex B.2.2).  [__proto__] is an accessor whose
    getter returns the receiver's prototype, here [Object.prototype]
    itself. *)
Definition Object_prototype : Obj :=
  Root
    [ ("constructor", VFunction "Object");
      ("__defineGetter__", VFunction "__defineGetter__");
      ("__defineSetter__", VFunction "__defineSetter__");
      ("hasOwnProperty", VFunction "hasOwnProperty");
      ("__lookupGetter__", VFunction "__lookupGetter__");
      ("__lookupSetter__", VFunction "__lookupSetter__");
      ("isPrototypeOf", VFunction "isPrototypeOf");
      ("propertyIsEnumerable", VFunction "propertyIsEnumerable");
      ("toString", VFunction "toString");
      ("valueOf", VFunction "valueOf");
      ("__proto__", VObject "Object.prototype");
      ("toLocaleString", VFunction "toLocaleString") ].

(** An object literal [{ k1: v1, ... }]. *)
Definition literal (ps : list (string * Value)) : Obj :=
  Inherit ps Object_prototype.

(** Numbers as the scripts use them: integral time values and counts, or
    [NaN] (the time value of an invalid [Date]). *)
Inductive Number :=
| NaN
| Num (z : Z).

(** The double an integer result is rounded to: itself up to 2^53, and
    beyond that the nearest number with a significand of 53 bits, a tie
    going to the even significand.  (Magnitudes of 2^1024 and more, which
    give [Infinity], are out of reach of time values.) *)
Definition toDouble (z : Z) : Z :=
  let a := Z.abs z in
  if a <=? 2 ^ 53 then z
  else
    let e := Z.log2 a - 52 in
    let q := a / 2 ^ e in
    let r := a mod 2 ^ e in
    let half := 2 ^ (e - 1) in
    let up := (half <? r) || ((r =? half) && Z.odd q) in
    Z.sgn z * ((if up then q + 1 else q) * 2 ^ e).

(** [a - b]: the operands are integers that are doubles, the exact
    difference is an integer, and the result is the double nearest to
    it. *)
Definition sub (a b : Number) : Number :=
  match a, b with
  | Num x, Num y => Num (toDouble (x - y))
  | _, _ => NaN
  end.

(** [Math.floor(a / k)] for a positive integer constant [k].  A [Date]'s
    time value is an integer of magnitude at most 8.64e15, so the quotient
    of a difference of two of them by 1000 stays below 2^44, where the
    rounded quotient is within 2^-10 of the exact one; the exact one lies
    at least 1/1000 below the next integer, so the rounded quotient never
    reaches it and the floor is the integer floor.  The same holds, with
    more room, of the divisions by 60 and 24. *)
Definition floor_div (a : Number) (k : Z) : Number :=
  match a with
  | Num x => Num (x / k)
  | NaN => NaN
  end.

(** [a > k]; every comparison with [NaN] is false. *)
Definition gt (a : Number) (k : Z) : bool :=
  match a with
  | Num x => k <? x
  | NaN => false
  end.

(** [Number::toString] of an integral number below 1e21: plain decimal
    digits with a leading minus sign for negatives. *)
Definition Number_toString (a : Number) : string :=
  match a with
  | Num x => NilZero.string_of_int (Z.to_int x)
  | NaN => "NaN"
  end.

(** [n + s] with a number on the left and a string on the right. *)
Definition concat_num (a : Number) (s : string) : string :=
  String.append (Number_toString a) s.

End JS.

(** ** The DOM as the scripts see it *)

Module Dom.

(** A [DOMString] is a sequence of UTF-16 code units. *)
Definition DOMString := list N.

(** The code units [String.prototype.trim] strips: ECMAScript's WhiteSpace
    (tab, vertical tab, form feed, the byte order mark and the space
    separators of Unicode) and LineTerminator. *)
Definition isWhiteSpace (c : N) : bool :=
  let c := Z.of_N c in
  (c =? 9) || (c =? 10) || (c =? 11) || (c =? 12) || (c =? 13) || (c =? 32)
  || (c =? 160) || (c =? 5760) || ((8192 <=? c) && (c <=? 8202))
  || (c =? 8232) || (c =? 8233) || (c =? 8239) || (c =? 8287)
  || (c =? 12288) || (c =? 65279).

Fixpoint trimStart (s : DOMString) : DOMString :=
  match s with
  | [] => []
  | c :: rest => if isWhiteSpace c then trimStart rest else s
  end.

Definition trimEnd (s : DOMString) : DOMString := rev (trimStart (rev s)).

Definition trim (s : DOMString) : DOMString := trimEnd (trimStart s).

(** [ToBoolean] of a string: the empty string is the only falsy one. *)
Definition truthy (s : DOMString) : bool :=
  match s with
  | [] => false
  | _ :: _ => true
  end.

(** The code units of an ASCII literal. *)
Fixpoint units (s : string) : DOMString :=
  match s with
  | EmptyString => []
  | String a rest => N_of_ascii a :: units rest
  end.

(** [DOMTokenList]: an ordered set of class names. *)
Definition contains (cls : string) (l : list string) : bool :=
  bool_decide (cls ∈ l).

Definition add (cls : string) (l : list string) : list string :=
  if decide (cls ∈ l) then l else l ++ [cls].

Definition remove (cls : string) (l : list string) : list string :=
  filter (λ c, c ≠ cls) l.

(** An element: its attributes, its class list, its [value] and its
    markup.  Form controls have a string [value]; on an element that has
    none (a [div], a link) or a number there (a list item, a meter), as
    [None] here, [value.trim] is no function. *)
Record Element := mkElement {
  attributes : gmap string string;
  classList : list string;
  value : option DOMString;
  innerHTML : string
}.

Definition hasAttribute (name : string) (el : Element) : bool :=
  bool_decide (is_Some (attributes el !! name)).

Definition setAttribute (name v : string) (el : Element) : Element :=
  mkElement (<[name := v]> (attributes el)) (classList el) (value el) (innerHTML el).

Definition removeAttribute (name : string) (el : Element) : Element :=
  mkElement (delete name (attributes el)) (classList el) (value el) (innerHTML el).

Definition with_attributes (f : gmap string string → gmap string string)
    (el : Element) : Element :=
  mkElement (f (attributes el)) (classList el) (value el) (innerHTML el).

Definition with_classList (f : list string → list string) (el : Element) : Element :=
  mkElement (attributes el) (f (classList el)) (value el) (innerHTML el).

(** [document.createElement('div')] *)
Definition createElement : Element := mkElement ∅ [] None "".

(** A cancelable event. *)
Record Event := mkEvent {
  defaultPrevented : bool;
  propagationStopped : bool
}.

Definition preventDefault (e : Event) : Event :=
  mkEvent true (propagationStopped e).

Definition stopPropagation (e : Event) : Event :=
  mkEvent (defaultPrevented e) true.

End Dom.

(** ** [static/js/main.js] *)

Module Main.
Import JS Dom.

(** *** The submit listener of every form

    A form is the list of its descendant elements in document order: the
    listener reads them through [querySelectorAll] and [querySelector],
    which answer in that order, and [prepend] puts the new first child in
    front of all of them. *)

Definition quote : string := String (ascii_of_nat 34) EmptyString.

(** The [div] the listener builds: [className] and [innerHTML] are the
    two assignments of the script. *)
Definition errorDiv : Element :=
  mkElement ∅ ["alert"; "alert-danger"; "mt-3"] None
    (String.append "<i class="
      (String.append quote
        (String.append "fas fa-exclamation-circle me-2"
          (String.append quote "></i>Please fill in all required fields.")))).

(** The body of the [forEach] callback on one required field: the
    element after it and the new [isValid], or [None] when
    [field.value.trim()] throws a [TypeError]. *)
Definition checkField (field : Element) (isValid : bool)
    : option (Element * bool) :=
  match value field with
  | Some v =>
      Some (if negb (truthy (trim v))
            then (with_classList (add "is-invalid") field, false)
            else (with_classList (remove "is-invalid") field, isValid))
  | None => None
  end.

(** [form.querySelectorAll('[required]').forEach(...)], threading
    [isValid]; elements without the attribute are passed over.  An
    exception ends the loop where it is thrown: the fields before keep
    their marks, the rest is not looked at, and no [isValid] comes
    back. *)
Fixpoint checkRequired (els : list Element) (isValid : bool)
    : list Element * option bool :=
  match els with
  | [] => ([], Some isValid)
  | el :: rest =>
      if hasAttribute "required" el then
        match checkField el isValid with
        | Some (el', v) =>
            let '(rest', v') := checkRequired rest v in (el' :: rest', v')
        | None => (el :: rest, None)
        end
      else
        let '(rest', v') := checkRequired rest isValid in (el :: rest', v')
  end.

(** [form.querySelector('.is-invalid')]: the position of the first
    descendant carrying the class. *)
Fixpoint firstInvalid (els : list Element) : option nat :=
  match els with
  | [] => None
  | el :: rest =>
      if contains "is-invalid" (classList el) then Some O
      else S <$> firstInvalid rest
  end.

(** What a run of the listener leaves: the form's descendants, the event,
    the element scrolled into view and focused, if any, and whether the
    listener ended in an exception. *)
Record Submitted := mkSubmitted {
  form : list Element;
  event : Event;
  focused : option nat;
  thrown : bool
}.

Definition onSubmit (els : list Element) (e : Event) : Submitted :=
  match checkRequired els true with
  | (els1, Some isValid) =>
      if negb isValid then
        let e1 := stopPropagation (preventDefault e) in
        let els2 := errorDiv :: els1 in
        mkSubmitted els2 e1 (firstInvalid els2) false
      else mkSubmitted els1 e None false
  | (els1, None) => mkSubmitted els1 e None true
  end.

(** A required field whose value is empty once trimmed. *)
Definition blank (f : Element) : Prop :=
  hasAttribute "required" f = true ∧ trim <$> value f = Some [].

(** A required element without a string value. *)
Definition valueless (f : Element) : Prop :=
  hasAttribute "required" f = true ∧ value f = None.

(** Every required element of the form is a control with a string
    value, as [input], [select] and [textarea] are, the elements the
    [required] attribute is for. *)
Definition controls (els : list Element) : Prop :=
  Forall (λ f, ¬ valueless f) els.

(** Not an empty required field. *)
Definition filled (f : Element) : bool :=
  negb (hasAttribute "required" f)
  || match value f with
     | Some v => truthy (trim v)
     | None => true
     end.

(** What one run of the listener does to a single descendant it gets
    past. *)
Definition mark (f : Element) : Element :=
  if hasAttribute "required" f then
    match value f with
    | Some v =>
        if truthy (trim v) then with_classList (remove "is-invalid") f
        else with_classList (add "is-invalid") f
    | None => f
    end
  else f.

(** *** Utility functions *)

(** [getIconForType(type)] *)
Definition icons : Obj :=
  literal
    [ ("success", VString "check-circle");
      ("error", VString "exclamation-circle");
      ("warning", VString "exclamation-triangle");
      ("info", VString "info-circle") ].

Definition getIconForType (type : string) : Value :=
  or (Get icons type) (VString "info-circle").

Section TimeAgo.
(** The time value of [new Date(dateString)] ([NaN] for a string that is
    no date) and of [new Date()]. *)
Variable Date_parse : string -> Number.
Variable now : Z.

Definition formatTimeAgo (dateString : string) : string :=
  let date := Date_parse dateString in
  let diffMs := sub (Num now) date in
  let diffSec := floor_div diffMs 1000 in
  let diffMin := floor_div diffSec 60 in
  let diffHour := floor_div diffMin 60 in
  let diffDay := floor_div diffHour 24 in
  if gt diffDay 0 then
    String.append
      (String.append (concat_num diffDay " day") (if gt diffDay 1 then "s" else ""))
      " ago"
  else if gt diffHour 0 then
    String.append
      (String.append (concat_num diffHour " hour") (if gt diffHour 1 then "s" else ""))
      " ago"
  else if gt diffMin 0 then
    String.append
      (String.append (concat_num diffMin " minute") (if gt diffMin 1 then "s" else ""))
      " ago"
  else "Just now".
End TimeAgo.

End Main.

(** ** [static/js/sidebar.js] *)

Module Sidebar.
Import Dom.

(** What the handler's queries find, fixed while the page lives: the
    elements are named by their identity in the page's store. *)
Record Layout := mkLayout {
  sidebar : nat;                       (* querySelector('.sidebar') *)
  mainContent : nat;                   (* querySelector('.main-content') *)
  navLinks : list nat;                 (* sidebar.querySelectorAll('.nav-link') *)
  navLinkText : nat → string;          (* link.querySelector('.nav-link-text')?.textContent || '' *)
  href : nat → option string;          (* link.getAttribute('href') *)
  dropdownToggle : nat → option nat;   (* link.closest('.dropdown')?.querySelector('.dropdown-toggle') *)
  pathname : string;                   (* window.location.pathname *)
  (* new bootstrap.Tooltip(link, ...) and tooltip.dispose(), as they act on
     the attributes of their trigger element *)
  Tooltip_new : gmap string string → gmap string string;
  Tooltip_dispose : gmap string string → gmap string string
  (* bootstrap.Tooltip.getInstance(link)?.dispose() *)
}.

Record Page := mkPage {
  elements : gmap nat Element;
  localStorage : gmap string string;
  innerWidth : Z
}.

Definition classes (p : Page) (id : nat) : list string :=
  match elements p !! id with
  | Some el => classList el
  | None => []
  end.

Definition update (id : nat) (f : Element → Element) (p : Page) : Page :=
  mkPage (alter f id (elements p)) (localStorage p) (innerWidth p).

Definition classList_add (id : nat) (cls : string) : Page → Page :=
  update id (with_classList (add cls)).

Definition classList_remove (id : nat) (cls : string) : Page → Page :=
  update id (with_classList (remove cls)).

Definition setItem (k v : string) (p : Page) : Page :=
  mkPage (elements p) (<[k := v]> (localStorage p)) (innerWidth p).

Definition getItem (k : string) (p : Page) : option string :=
  localStorage p !! k.

(** The page has the two elements the script dereferences unguarded. *)
Definition present (d : Layout) (p : Page) : Prop :=
  is_Some (elements p !! sidebar d) ∧ is_Some (elements p !! mainContent d).

(** [keeps c p q]: from [p] to [q] no element gained or lost the class
    [c], and storage and window are as they were. *)
Definition keeps (c : string) (p q : Page) : Prop :=
  (∀ id, c ∈ classes q id ↔ c ∈ classes p id)
  ∧ localStorage q = localStorage p
  ∧ innerWidth q = innerWidth p.

Section Handlers.
Variable d : Layout.

Definition updateSidebarTooltips (p : Page) : Page :=
  foldl
    (λ p link,
       let text := navLinkText d link in
       let fresh :=
         match elements p !! link with
         | Some el => negb (hasAttribute "data-bs-original-title" el)
         | None => false
         end in
       if negb (String.eqb text "") && fresh then
         update link
           (λ el,
              with_attributes (Tooltip_new d)
                (setAttribute "data-bs-title" text
                  (setAttribute "data-bs-placement" "right"
                    (setAttribute "data-bs-toggle" "tooltip" el))))
           p
       else p)
    p (navLinks d).

Definition removeSidebarTooltips (p : Page) : Page :=
  foldl
    (λ p link,
       match elements p !! link with
       | Some el =>
           if hasAttribute "data-bs-original-title" el then
             update link
               (λ el,
                  removeAttribute "data-bs-original-title"
                    (removeAttribute "data-bs-title"
                      (removeAttribute "data-bs-placement"
                        (removeAttribute "data-bs-toggle"
                          (with_attributes (Tooltip_dispose d) el)))))
               p
           else p
       | None => p
       end)
    p (navLinks d).

Definition collapseSidebar (p : Page) : Page :=
  let p := classList_add (sidebar d) "collapsed" p in
  let p := classList_add (mainContent d) "expanded" p in
  let p := setItem "sidebarCollapsed" "true" p in
  updateSidebarTooltips p.

Definition expandSidebar (p : Page) : Page :=
  let p := classList_remove (sidebar d) "collapsed" p in
  let p := classList_remove (mainContent d) "expanded" p in
  let p := setItem "sidebarCollapsed" "false" p in
  removeSidebarTooltips p.

Definition handleResize (p : Page) : Page :=
  if innerWidth p <=? 992 then
    classList_remove (mainContent d) "expanded"
      (classList_remove (sidebar d) "collapsed" p)
  else p.

(** [currentPath.startsWith(href)] *)
Definition startsWith (s pre : string) : bool := String.prefix pre s.

Definition setActiveSidebarItem (p : Page) : Page :=
  foldl
    (λ p link,
       let p := classList_remove link "active" p in
       match href d link with
       | Some h =>
           if negb (String.eqb h "") && startsWith (pathname d) h then
             let p := classList_add link "active" p in
             match dropdownToggle d link with
             | Some t => classList_add t "active" p
             | None => p
             end
           else p
       | None => p
       end)
    p (navLinks d).

(** The click listener of [#sidebarToggle]. *)
Definition onToggleClick (p : Page) : Page :=
  if contains "collapsed" (classes p (sidebar d)) then expandSidebar p
  else collapseSidebar p.

(** The [DOMContentLoaded] listener, in the order of the script. *)
Definition onLoad (p : Page) : Page :=
  let isSidebarCollapsed :=
    bool_decide (getItem "sidebarCollapsed" p = Some "true") in
  let p := if isSidebarCollapsed then collapseSidebar p else p in
  let p := handleResize p in
  let p := setActiveSidebarItem p in
  if contains "collapsed" (classes p (sidebar d)) then updateSidebarTooltips p
  else p.
End Handlers.

End Sidebar.

(** ** The incident core

    The pipeline behind the dashboard (incident records, evidence access,
    alert routing) is specified, but its code is not among the repository's
    files.  The definitions of this module are written from the
    specification's sections 3 and 4. *)

Module Core.

(** Modelled from the spec: the states of the incident lifecycle (section
    4.3); the Incident Record Manager's code is missing. *)
Inductive Status :=
| submitted | triaged | investigating | resolved | rejected | reopened.

(** Modelled from the spec: the category enumeration of section 3. *)
Inductive Category :=
| theft | vandalism | unauthorized_access | cult_activity | cyber | other.

(** Modelled from the spec: the roles an actor is supplied with; the
    specification names administrators, managers and viewers, the README
    the rest. *)
Inductive Role :=
| administrator | manager | security_guard | ict_staff | institution_admin | viewer.

Inductive Source := evidence_upload | live_feed.

#[global] Instance Status_eq_dec : EqDecision Status.
Proof. solve_decision. Defined.

#[global] Instance Category_eq_dec : EqDecision Category.
Proof. solve_decision. Defined.

#[global] Instance Role_eq_dec : EqDecision Role.
Proof. solve_decision. Defined.

(** An actor as the core receives it: an identity, a role and a location
    scope ([None]: the whole institution). *)
Record Actor := mkActor {
  actor_id : nat;
  role : Role;
  scope : option string
}.

#[global] Instance Actor_eq_dec : EqDecision Actor.
Proof. solve_decision. Defined.

(** Manager or above. *)
Definition at_least_manager (r : Role) : bool :=
  match r with
  | administrator | manager => true
  | _ => false
  end.

Inductive Analysis :=
| analysis_pending
| analysis_done (suggested_severity : Z)
| analysis_failed
| analysis_skipped.

Inductive Redaction :=
| redaction_not_run
| redaction_pending
| redacted (artifact : string)
| redaction_overridden.

(** Modelled from the spec: the EvidenceItem of section 3, its analysis
    and redaction results pending until the components report. *)
Record EvidenceItem := mkEvidence {
  item_id : nat;
  locator : string;
  analysis : Analysis;
  redaction : Redaction
}.

(** Modelled from the spec: what an audit entry records (sections 3, 4.2
    and 4.3). *)
Inductive Action :=
| Transition (prior next : Status)
| SeverityChanged (old new : Z)
| NoteAdded (text : string)
| InvestigatorAssigned (who : nat)
| AnalysisRecorded (item : nat)
| RedactionRecorded (item : nat)
| RedactionOverridden (item : nat)
| EvidenceUnlocked (item : nat).

Record AuditEntry := mkEntry {
  entry_actor : Actor;
  action : Action;
  timestamp : Z
}.

(** Modelled from the spec: the Incident of section 3 with its
    append-only audit log. *)
Record Incident := mkIncident {
  incident_id : nat;
  source : Source;
  location : string;
  category : Category;
  declared_severity : option Z;
  severity : Z;
  status : Status;
  evidence : list EvidenceItem;
  investigator : option nat;
  audit : list AuditEntry
}.

Inductive Rejection :=
| TransitionRejected (why : string)
| PermissionDenied
| RedactionPending
| InvalidSeverity.

Inductive Result (A : Type) :=
| Accepted (a : A)
| Rejected (r : Rejection).
Arguments Accepted {A} a.
Arguments Rejected {A} r.

(** *** Incident Record Manager *)

Definition set_status (s : Status) (i : Incident) : Incident :=
  mkIncident (incident_id i) (source i) (location i) (category i)
    (declared_severity i) (severity i) s (evidence i) (investigator i) (audit i).

Definition set_severity (v : Z) (i : Incident) : Incident :=
  mkIncident (incident_id i) (source i) (location i) (category i)
    (declared_severity i) v (status i) (evidence i) (investigator i) (audit i).

Definition set_evidence (ev : list EvidenceItem) (i : Incident) : Incident :=
  mkIncident (incident_id i) (source i) (location i) (category i)
    (declared_severity i) (severity i) (status i) ev (investigator i) (audit i).

Definition set_investigator (who : nat) (i : Incident) : Incident :=
  mkIncident (incident_id i) (source i) (location i) (category i)
    (declared_severity i) (severity i) (status i) (evidence i) (Some who) (audit i).

(** Modelled from the spec: the audit log of section 3 is an ordered,
    append-only sequence; the Incident Record Manager's code is missing,
    and this is its only way to write the log. *)
Definition append_audit (e : AuditEntry) (i : Incident) : Incident :=
  mkIncident (incident_id i) (source i) (location i) (category i)
    (declared_severity i) (severity i) (status i) (evidence i) (investigator i)
    (audit i ++ [e]).

(** Modelled from the spec: the edges of the state machine of section 4.3
    (the Incident Record Manager's code is missing). *)
Definition edge (a b : Status) : bool :=
  match a, b with
  | submitted, triaged
  | triaged, investigating
  | investigating, resolved
  | submitted, rejected
  | triaged, rejected
  | resolved, reopened
  | reopened, investigating => true
  | _, _ => false
  end.

Definition analysed (it : EvidenceItem) : bool :=
  match analysis it with
  | analysis_pending => false
  | _ => true
  end.

(** The largest severity the analyzer suggested over the evidence. *)
Definition suggested_by_analyzer (ev : list EvidenceItem) : Z :=
  foldr
    (λ it acc,
       match analysis it with
       | analysis_done v => Z.max v acc
       | _ => acc
       end)
    0 ev.

Definition is_resolution_note (e : AuditEntry) : bool :=
  match action e with
  | NoteAdded text => negb (String.eqb text "")
  | _ => false
  end.

(** Modelled from the spec: the transition rules of section 4.3 (the
    Incident Record Manager's code is missing).  [Some why] is a veto. *)
Definition guard (i : Incident) (target : Status) : option string :=
  match status i, target with
  | submitted, triaged =>
      if negb (forallb analysed (evidence i)) then Some "analysis pending"
      else
        match evidence i, declared_severity i with
        | [], None => Some "severity not supplied"
        | _, _ => None
        end
  | triaged, investigating =>
      match investigator i with
      | Some _ => None
      | None => Some "no investigator assigned"
      end
  | investigating, resolved =>
      if existsb is_resolution_note (audit i) then None
      else Some "no resolution note"
  | _, _ => None
  end.

(** On triage the initial severity is the larger of the declared and the
    suggested one; other transitions leave the severity alone. *)
Definition severity_on (target : Status) (i : Incident) : Z :=
  match target with
  | triaged =>
      Z.max (default 0 (declared_severity i))
        (suggested_by_analyzer (evidence i))
  | _ => severity i
  end.

(** Modelled from the spec: a status transition of section 4.3 (the
    Incident Record Manager's code is missing): vetoed with a typed
    rejection, or taken with one audit entry of actor, prior state, new
    state and timestamp. *)
Definition transition (who : Actor) (now : Z) (target : Status) (i : Incident)
    : Result Incident :=
  if negb (edge (status i) target) then
    Rejected (TransitionRejected "no such transition")
  else
    match guard i target with
    | Some why => Rejected (TransitionRejected why)
    | None =>
        Accepted
          (append_audit (mkEntry who (Transition (status i) target) now)
             (set_status target (set_severity (severity_on target i) i)))
    end.

(** *** Evidence access (Privacy Redactor, section 4.2) *)

Inductive Access :=
| Denied
| Original (loc : string)
| RedactedCopy (loc : string).

(** Modelled from the spec: the capability check on an evidence item of
    sections 3 and 4.2 (the Privacy Redactor and the access layer are
    missing): managers and administrators reach the original; every role
    below sees the redacted artifact once redaction succeeded, the
    original after an administrator's override, and nothing before. *)
Definition retrieve (a : Actor) (it : EvidenceItem) : Access :=
  if at_least_manager (role a) then Original (locator it)
  else
    match redaction it with
    | redacted artifact => RedactedCopy artifact
    | redaction_overridden => Original (locator it)
    | redaction_pending | redaction_not_run => Denied
    end.

Definition is_denied (a : Access) : bool :=
  match a with
  | Denied => true
  | _ => false
  end.

Definition on_item (item : nat) (f : EvidenceItem → EvidenceItem)
    (ev : list EvidenceItem) : list EvidenceItem :=
  map (λ it, if decide (item_id it = item) then f it else it) ev.

Definition with_analysis (r : Analysis) (it : EvidenceItem) : EvidenceItem :=
  mkEvidence (item_id it) (locator it) r (redaction it).

Definition with_redaction (r : Redaction) (it : EvidenceItem) : EvidenceItem :=
  mkEvidence (item_id it) (locator it) (analysis it) r.

(** What the redactor reports for an item: the artifact, or [None] when
    face detection failed. *)
Definition redaction_outcome (artifact : option string) : Redaction :=
  match artifact with
  | Some loc => redacted loc
  | None => redaction_pending
  end.

Inductive Command :=
| Advance (target : Status)
| Assign (who : nat)
| AddNote (text : string)
| SetSeverity (v : Z)
| RecordAnalysis (item : nat) (r : Analysis)
| RecordRedaction (item : nat) (artifact : option string)
| OverrideRedaction (item : nat)
| Unlock (item : nat).

(** Modelled from the spec: the operations on one incident named in
    sections 3, 4.2 and 4.3 (the code of the Incident Record Manager and of
    the Privacy Redactor is missing).  Every accepted operation leaves one
    entry in the audit log. *)
Definition perform (who : Actor) (now : Z) (c : Command) (i : Incident)
    : Result Incident :=
  match c with
  | Advance target => transition who now target i
  | Assign inv =>
      Accepted (append_audit (mkEntry who (InvestigatorAssigned inv) now)
                  (set_investigator inv i))
  | AddNote text =>
      Accepted (append_audit (mkEntry who (NoteAdded text) now) i)
  | SetSeverity v =>
      if (0 <=? v) && (v <=? 100) then
        Accepted (append_audit (mkEntry who (SeverityChanged (severity i) v) now)
                    (set_severity v i))
      else Rejected InvalidSeverity
  | RecordAnalysis item r =>
      Accepted (append_audit (mkEntry who (AnalysisRecorded item) now)
                  (set_evidence (on_item item (with_analysis r) (evidence i)) i))
  | RecordRedaction item artifact =>
      Accepted (append_audit (mkEntry who (RedactionRecorded item) now)
                  (set_evidence
                     (on_item item (with_redaction (redaction_outcome artifact))
                        (evidence i)) i))
  | OverrideRedaction item =>
      if decide (role who = administrator) then
        Accepted (append_audit (mkEntry who (RedactionOverridden item) now)
                    (set_evidence
                       (on_item item (with_redaction redaction_overridden)
                          (evidence i)) i))
      else Rejected PermissionDenied
  | Unlock item =>
      if forallb
           (λ it, negb (bool_decide (item_id it = item))
                  || negb (is_denied (retrieve who it)))
           (evidence i)
      then Accepted (append_audit (mkEntry who (EvidenceUnlocked item) now) i)
      else Rejected RedactionPending
  end.

(** A report as the submission interface takes it. *)
Record Report := mkReport {
  report_source : Source;
  report_location : string;
  report_category : Category;
  report_declared : option Z;
  report_severity : Z;
  report_evidence : list (nat * string)
}.

(** Modelled from the spec: the record the submission interface of
    section 6 creates (the Incident Record Manager's code is missing):
    initial state [submitted], evidence neither analysed nor redacted, an
    empty audit log. *)
Definition new_incident (id : nat) (r : Report) : Incident :=
  mkIncident id (report_source r) (report_location r) (report_category r)
    (report_declared r) (report_severity r) submitted
    (map (λ '(n, loc), mkEvidence n loc analysis_pending redaction_not_run)
         (report_evidence r))
    None [].

(** The incidents the core can hold: a new one, and what accepted
    operations make of it. *)
Inductive reachable : Incident → Prop :=
| reach_new id r : reachable (new_incident id r)
| reach_perform i who now c i' :
    reachable i → perform who now c i = Accepted i' → reachable i'.

(** Modelled from the spec: replay of an audit log (section 4.3, the log
    is the sole source of incident history; the code is missing): each
    transition entry must leave from the state reached so far along an
    edge of the machine, every other entry leaves the state alone. *)
Fixpoint replay (st : Status) (log : list AuditEntry) : option Status :=
  match log with
  | [] => Some st
  | e :: rest =>
      match action e with
      | Transition prior next =>
          if bool_decide (prior = st) && edge prior next then replay next rest
          else None
      | _ => replay st rest
      end
  end.

(** An item readable below manager level without a redacted copy has an
    administrator's override in the log. *)
Definition override_logged (i : Incident) : Prop :=
  ∀ it, it ∈ evidence i → redaction it = redaction_overridden →
    ∃ e, e ∈ audit i
         ∧ action e = RedactionOverridden (item_id it)
         ∧ role (entry_actor e) = administrator.

(** A script of operations, each with its actor and time; a rejected
    operation leaves the incident as it was. *)
Fixpoint run (script : list (Actor * Z * Command)) (i : Incident) : Incident :=
  match script with
  | [] => i
  | (who, now, c) :: rest =>
      match perform who now c i with
      | Accepted i' => run rest i'
      | Rejected _ => run rest i
      end
  end.

(** *** Alert Routing Engine (section 4.5) *)

Record AlertConfig := mkAlertConfig {
  emergency_threshold : Z;
  emergency_categories : list Category
}.

Inductive Delivery := delivery_pending | delivery_sent | delivery_failed.

Record AlertEvent := mkAlert {
  alert_incident : nat;
  recipients : list Actor;
  delivery : Delivery;
  created : Z
}.

(** Modelled from the spec: the emergency test of section 4.5 (the Alert
    Routing Engine's code is missing): the severity crosses the configured
    threshold, or the category is one configured as an emergency. *)
Definition is_emergency (cfg : AlertConfig) (i : Incident) : bool :=
  (emergency_threshold cfg <=? severity i)
  || bool_decide (category i ∈ emergency_categories cfg).

(** Modelled from the spec: the routing decision of section 4.5 (the
    Alert Routing Engine's code is missing): a live feed always alerts,
    an evidence upload only in an emergency. *)
Definition should_alert (cfg : AlertConfig) (i : Incident) : bool :=
  match source i with
  | live_feed => true
  | evidence_upload => is_emergency cfg i
  end.

(** Modelled from the spec: recipient resolution of section 4.5 (the Alert
    Routing Engine's code is missing): the managers and administrators
    scoped to the incident's location, and the institution-wide
    administrators when there is none. *)
Definition resolve_recipients (staff : list Actor) (loc : string) : list Actor :=
  let scoped :=
    filter (λ a, at_least_manager (role a) = true ∧ scope a = Some loc) staff in
  match scoped with
  | [] => filter (λ a, role a = administrator ∧ scope a = None) staff
  | _ => scoped
  end.

(** Modelled from the spec: the alerts one incident event gives rise to
    (section 4.5; the Alert Routing Engine's code is missing). *)
Definition route (cfg : AlertConfig) (staff : list Actor) (now : Z)
    (i : Incident) : list AlertEvent :=
  if should_alert cfg i then
    [mkAlert (incident_id i) (resolve_recipients staff (location i))
       delivery_pending now]
  else [].

Record System := mkSystem {
  incidents : gmap nat Incident;
  alerts : list AlertEvent;
  next_id : nat
}.

(** Modelled from the spec: the submission path of sections 2 and 6 (its
    code is missing): the record is created first, alerting is an overlay
    on top of it. *)
Definition submit (cfg : AlertConfig) (staff : list Actor) (now : Z)
    (r : Report) (s : System) : System :=
  let i := new_incident (next_id s) r in
  mkSystem (<[next_id s := i]> (incidents s))
    (alerts s ++ route cfg staff now i)
    (S (next_id s)).

End Core.

(** ** [main.js]: request indicators and toasts *)

Module Indicator.
Import Dom Sidebar.

Section Handlers.
(** [document.querySelector(selector)] on the page as it stands; [None]
    when nothing matches (a selector that does not parse throws before the
    handler has changed anything, which leaves the page as [None] does). *)
Variable querySelector : Page → string → option nat.

(** The element the [hx-indicator] attribute of the request's target
    points at. *)
Definition indicator (target : nat) (p : Page) : option nat :=
  match elements p !! target with
  | Some el =>
      match attributes el !! "hx-indicator" with
      | Some selector => querySelector p selector
      | None => None
      end
  | None => None
  end.

(** The [htmx:beforeRequest] listener. *)
Definition onBeforeRequest (target : nat) (p : Page) : Page :=
  match indicator target p with
  | Some i => classList_add i "fa-spin" p
  | None => p
  end.

(** The [htmx:afterRequest] listener. *)
Definition onAfterRequest (target : nat) (p : Page) : Page :=
  match indicator target p with
  | Some i => classList_remove i "fa-spin" p
  | None => p
  end.
End Handlers.

End Indicator.

Module Toast.
Import JS Dom.

(** A toast as [showToast] builds it: its [id], its [className], and the
    two holes of its markup (the icon name and the message). *)
Record ToastElement := mkToast {
  toast_id : string;
  toast_className : string;
  toast_attributes : list (string * string);
  toast_icon : Value;
  toast_message : string
}.

(** The part of the document the toasts live in: the children of the
    element with id [toast-container], if there is one, and how many
    containers were appended to [document.body]. *)
Record Doc := mkDoc {
  container : option (list ToastElement);
  created : nat
}.

(** [createToastContainer()]: a new container at the end of the body; a
    container already there stays the one [getElementById] finds. *)
Definition createToastContainer (d : Doc) : Doc :=
  mkDoc (Some (default [] (container d))) (S (created d)).

(** What [showToast] builds at clock reading [now]. *)
Definition toast (now : Z) (message type : string) : ToastElement :=
  mkToast
    (String.append "toast-" (Number_toString (Num now)))
    (String.append "toast align-items-center text-bg-"
       (String.append type " border-0"))
    [("role", "alert"); ("aria-live", "assertive"); ("aria-atomic", "true")]
    (Main.getIconForType type)
    message.

(** [showToast(message, type = 'info')] at clock reading [now]. *)
Definition showToast (now : Z) (message : string) (type : option string)
    (d : Doc) : Doc :=
  let type := default "info" type in
  let d :=
    match container d with
    | Some _ => d
    | None => createToastContainer d
    end in
  mkDoc ((λ children, children ++ [toast now message type]) <$> container d)
    (created d).

(** The [hidden.bs.toast] listener of the toast at position [k]:
    [toast.remove()]. *)
Definition onHidden (k : nat) (d : Doc) : Doc :=
  mkDoc (delete k <$> container d) (created d).

(** A series of calls, each with its clock reading. *)
Definition showAll (calls : list (Z * string * option string)) (d : Doc) : Doc :=
  foldl (λ d '(now, message, type), showToast now message type d) d calls.

End Toast.

(** ** [main.js]: the flash message system *)

Module Flash.
Import Dom.

(** The values an options object holds. *)
Inductive Opt :=
| OUndefined
| ONull
| OBool (b : bool)
| ONum (n : Z)
| OStr (s : string).

Definition toBoolean (v : Opt) : bool :=
  match v with
  | OUndefined | ONull => false
  | OBool b => b
  | ONum n => negb (n =? 0)
  | OStr s => negb (String.eqb s "")
  end.

Definition defaultOptions : gmap string Opt :=
  {[ "autoDismiss" := OBool true;
     "duration" := ONum 7000;
     "icon" := ONull;
     "title" := ONull;
     "closeable" := OBool true ]}.

(** [{ ...defaultOptions, ...options }]: the later spread wins. *)
Definition merge (options : gmap string Opt) : gmap string Opt :=
  options ∪ defaultOptions.

(** [config.key] *)
Definition get (config : gmap string Opt) (key : string) : Opt :=
  default OUndefined (config !! key).

(** The two [switch] statements of [createMessageElement]. *)
Definition iconFor (type : string) : string :=
  if String.eqb type "success" then "fa-check-circle"
  else if String.eqb type "error" then "fa-exclamation-circle"
  else if String.eqb type "danger" then "fa-exclamation-circle"
  else if String.eqb type "warning" then "fa-exclamation-triangle"
  else if String.eqb type "info" then "fa-info-circle"
  else "fa-bell".

Definition titleFor (type : string) : string :=
  if String.eqb type "success" then "Success"
  else if String.eqb type "error" then "Error"
  else if String.eqb type "danger" then "Error"
  else if String.eqb type "warning" then "Warning"
  else if String.eqb type "info" then "Information"
  else "Notification".

(** ASCII white space, which separates the tokens of a [class]
    attribute. *)
Definition isSpace (a : ascii) : bool :=
  let n := nat_of_ascii a in
  (n =? 9)%nat || (n =? 10)%nat || (n =? 12)%nat || (n =? 13)%nat
  || (n =? 32)%nat.

Fixpoint split (s : string) (current : string) : list string :=
  match s with
  | EmptyString => if String.eqb current "" then [] else [current]
  | String a rest =>
      if isSpace a then
        if String.eqb current "" then split rest ""
        else current :: split rest ""
      else split rest (String.append current (String a EmptyString))
  end.

(** The token set of [element.className = s]. *)
Definition tokens (s : string) : list string :=
  foldl (λ acc t, add t acc) [] (split s "").

(** A message element: its class list, whether a close listener was
    attached to its close button, its [data-auto-dismiss] attribute, and
    the holes of its markup. *)
Record Node := mkNode {
  classes : list string;
  closeListener : bool;
  autoDismissAttr : option string;
  icon : Opt;
  title : Opt;
  text : string;
  hasCloseButton : bool;
  progress : option Opt
}.

(** What the timers are waiting to do. *)
Inductive Task :=
| CallRemove (m : nat) (delay : Opt)   (* () => this.remove(m) *)
| Detach (m : nat).                    (* the 300 ms callback of remove *)

(** The document as the flash system sees it: the elements by identity,
    the container's children in order, the other elements that are in the
    document, the container's class list, and the pending timers and
    animation frames. *)
Record State := mkState {
  nodes : gmap nat Node;
  children : list nat;
  elsewhere : gset nat;
  containerClasses : list string;
  timers : list Task;
  frames : list nat
}.

(** [m.parentNode] is not null. *)
Definition hasParent (m : nat) (s : State) : bool :=
  bool_decide (m ∈ children s) || bool_decide (m ∈ elsewhere s).

Definition with_classes (f : list string → list string) (n : Node) : Node :=
  mkNode (f (classes n)) (closeListener n) (autoDismissAttr n) (icon n)
    (title n) (text n) (hasCloseButton n) (progress n).

Definition with_listener (n : Node) : Node :=
  mkNode (classes n) true (autoDismissAttr n) (icon n)
    (title n) (text n) (hasCloseButton n) (progress n).

(** [createMessageElement(message, type, config)] *)
Definition createMessageElement (message type : string)
    (config : gmap string Opt) : Node :=
  let icon := get config "icon" in
  let icon := if negb (toBoolean icon) then OStr (iconFor type) else icon in
  let title := get config "title" in
  let title := if negb (toBoolean title) then OStr (titleFor type) else title in
  mkNode (tokens (String.append "flash-message flash-" type))
    (toBoolean (get config "closeable"))
    None icon title message
    (toBoolean (get config "closeable"))
    (if toBoolean (get config "autoDismiss") then Some (get config "duration")
     else None).

(** [remove(messageElement)] *)
Definition remove (m : nat) (s : State) : State :=
  if negb (hasParent m s) then s
  else
    mkState (alter (with_classes (add "flash-exiting")) m (nodes s))
      (children s) (elsewhere s) (containerClasses s)
      (timers s ++ [Detach m]) (frames s).

(** The callback [remove] leaves with the timer: [m] leaves its parent,
    wherever that is, and an empty container loses its class. *)
Definition detach (m : nat) (s : State) : State :=
  let kids := filter (λ k, k ≠ m) (children s) in
  let others := elsewhere s ∖ {[ m ]} in
  mkState (nodes s) kids others
    (match kids with
     | [] => Dom.remove "has-messages" (containerClasses s)
     | _ :: _ => containerClasses s
     end)
    (timers s) (frames s).

(** [show(message, type = 'info', options = {})]; the new element takes
    an identity no element has. *)
Definition show (message : string) (type : option string)
    (options : gmap string Opt) (s : State) : State :=
  let type := default "info" type in
  let config := merge options in
  let m := fresh (dom (nodes s) ∪ list_to_set (children s) ∪ elsewhere s) in
  mkState (<[m := createMessageElement message type config]> (nodes s))
    (children s ++ [m]) (elsewhere s)
    (add "has-messages" (containerClasses s))
    (if toBoolean (get config "autoDismiss")
     then timers s ++ [CallRemove m (get config "duration")]
     else timers s)
    (frames s ++ [m]).

(** [m] is in the document and carries the class [flash-message]. *)
Definition isFlashMessage (s : State) (m : nat) : bool :=
  hasParent m s
  && match nodes s !! m with
     | Some n => bool_decide ("flash-message" ∈ classes n)
     | None => false
     end.

(** [document.querySelectorAll('.flash-message')], by identity (the order
    only decides in which order timers are set). *)
Definition flashMessages (s : State) : list nat :=
  filter (λ m, isFlashMessage s m = true) (map fst (map_to_list (nodes s))).

(** [clearAll()] *)
Definition clearAll (s : State) : State :=
  foldl (λ s m, remove m s) s (flashMessages s).

(** [setupExistingMessages()], run by the constructor. *)
Definition setupExistingMessages (s : State) : State :=
  let messages := flashMessages s in
  let s :=
    foldl
      (λ s m,
         match nodes s !! m with
         | Some n =>
             let n' := if hasCloseButton n then with_listener n else n in
             mkState (<[m := n']> (nodes s)) (children s) (elsewhere s)
               (containerClasses s)
               (if bool_decide (autoDismissAttr n = Some "true")
                then timers s ++ [CallRemove m (ONum 7000)]
                else timers s)
               (frames s)
         | None => s
         end)
      s messages in
  match messages with
  | [] => s
  | _ :: _ =>
      mkState (nodes s) (children s) (elsewhere s)
        (add "has-messages" (containerClasses s)) (timers s) (frames s)
  end.

(** What can happen once the system is set up. *)
Inductive Event :=
| Show (message : string) (type : option string) (options : gmap string Opt)
| CloseClick (m : nat)
| Fire (k : nat)
| Frame (k : nat)
| ClearAll.

Definition run_task (t : Task) (s : State) : State :=
  match t with
  | CallRemove m _ => remove m s
  | Detach m => detach m s
  end.

Definition handle (s : State) (e : Event) : State :=
  match e with
  | Show message type options => show message type options s
  | CloseClick m =>
      match nodes s !! m with
      | Some n => if closeListener n then remove m s else s
      | None => s
      end
  | Fire k =>
      match timers s !! k with
      | Some t =>
          run_task t
            (mkState (nodes s) (children s) (elsewhere s)
               (containerClasses s) (delete k (timers s)) (frames s))
      | None => s
      end
  | Frame k =>
      match frames s !! k with
      | Some m =>
          mkState (alter (with_classes (add "flash-visible")) m (nodes s))
            (children s) (elsewhere s) (containerClasses s) (timers s)
            (delete k (frames s))
      | None => s
      end
  | ClearAll => clearAll s
  end.

(** The markup a page is served with, as far as the container's class
    goes: the container's children are the flash messages of the
    document, and the class is not on an empty container. *)
Definition served (s : State) : Prop :=
  (∀ m, m ∈ children s → m ∈ flashMessages s)
  ∧ (∀ m, m ∈ flashMessages s → m ∈ children s)
  ∧ ("has-messages" ∈ containerClasses s → children s ≠ []).

(** The class on the container says whether it has children. *)
Definition told (s : State) : Prop :=
  "has-messages" ∈ containerClasses s ↔ children s ≠ [].

(** [m] is an element that is out of the document. *)
Definition gone (m : nat) (s : State) : Prop :=
  is_Some (nodes s !! m) ∧ (m ∉ children s) ∧ (m ∉ elsewhere s).

(** The container and its class are as they were. *)
Definition same_container (s s' : State) : Prop :=
  children s' = children s ∧ containerClasses s' = containerClasses s.

(** The states of a page: set up from the served document, then any
    events in any order. *)
Inductive reachable : State → Prop :=
| reach_setup s : served s → reachable (setupExistingMessages s)
| reach_event s e : reachable s → reachable (handle s e).

End Flash.

(** ** [sidebar.js]: the listeners besides collapse and load *)

Module SidebarEvents.
Import Dom Sidebar.

(** The controls the handler looks up and guards with [if]: whether the
    two buttons exist, and the overlay. *)
Record Controls := mkControls {
  sidebarToggle : bool;            (* getElementById('sidebarToggle') *)
  mobileSidebarToggle : bool;      (* getElementById('mobileSidebarToggle') *)
  sidebarOverlay : option nat      (* querySelector('.sidebar-overlay') *)
}.

(** [classList.toggle(cls)] *)
Definition toggle (cls : string) (l : list string) : list string :=
  if decide (cls ∈ l) then remove cls l else add cls l.

Definition classList_toggle (id : nat) (cls : string) : Page → Page :=
  update id (with_classList (toggle cls)).

(** The same elements, whatever became of them. *)
Definition same_elements (p q : Page) : Prop :=
  ∀ k, is_Some (elements q !! k) ↔ is_Some (elements p !! k).

(** The class [c] is where it was. *)
Definition same_class (c : string) (p q : Page) : Prop :=
  ∀ id, c ∈ classes q id ↔ c ∈ classes p id.

Inductive Event :=
| ToggleClick
| MobileToggleClick
| OverlayClick
| Resize (width : Z)
| Keydown (ctrlKey : bool) (key : string).

Section Handlers.
Variable d : Layout.
Variable c : Controls.

Definition onMobileToggleClick (p : Page) : Page :=
  let p := classList_toggle (sidebar d) "mobile-open" p in
  match sidebarOverlay c with
  | Some o => classList_toggle o "show" p
  | None => p
  end.

Definition onOverlayClick (o : nat) (p : Page) : Page :=
  let p := classList_remove (sidebar d) "mobile-open" p in
  classList_remove o "show" p.

(** [sidebarToggle.click()] runs the button's click listener. *)
Definition onKeydown (ctrlKey : bool) (key : string) (p : Page) : Page :=
  let p :=
    if ctrlKey && String.eqb key "b" then
      if sidebarToggle c then onToggleClick d p else p
    else p in
  if String.eqb key "Escape" && (innerWidth p <=? 992) then
    if contains "mobile-open" (classes p (sidebar d)) then
      let p := classList_remove (sidebar d) "mobile-open" p in
      match sidebarOverlay c with
      | Some o => classList_remove o "show" p
      | None => p
      end
    else p
  else p.

(** The window takes its new width, then the [resize] listener runs. *)
Definition onResize (width : Z) (p : Page) : Page :=
  handleResize d (mkPage (elements p) (localStorage p) width).

(** An event reaches the listeners that were registered for it. *)
Definition handle (p : Page) (e : Event) : Page :=
  match e with
  | ToggleClick => if sidebarToggle c then onToggleClick d p else p
  | MobileToggleClick =>
      if mobileSidebarToggle c then onMobileToggleClick p else p
  | OverlayClick =>
      match sidebarOverlay c with
      | Some o => onOverlayClick o p
      | None => p
      end
  | Resize width => onResize width p
  | Keydown ctrlKey key => onKeydown ctrlKey key p
  end.

(** The path of the page starts with the link's [href], which is not
    empty. *)
Definition leads_here (link : nat) : bool :=
  match href d link with
  | Some h => negb (String.eqb h "") && startsWith (pathname d) h
  | None => false
  end.

(** One round of the loop of [setActiveSidebarItem]. *)
Definition mark_link (p : Page) (link : nat) : Page :=
  let p := classList_remove link "active" p in
  match href d link with
  | Some h =>
      if negb (String.eqb h "") && startsWith (pathname d) h then
        let p := classList_add link "active" p in
        match dropdownToggle d link with
        | Some t => classList_add t "active" p
        | None => p
        end
      else p
  | None => p
  end.

(** The drawer and its overlay are shown together. *)
Definition in_step (p : Page) : Prop :=
  ∀ o, sidebarOverlay c = Some o →
       ("mobile-open" ∈ classes p (sidebar d) ↔ "show" ∈ classes p o).

(** The sidebar and the overlay the script found are elements of the
    page. *)
Definition found (p : Page) : Prop :=
  present d p
  ∧ ∀ o, sidebarOverlay c = Some o → is_Some (elements p !! o).
End Handlers.

End SidebarEvents.

(** ** [static/js/sidebar.js] as [main.js] carries it: the mobile drawer *)

Module MobileSidebar.
Import Dom Sidebar.

(** What the handler looks up: three elements [openMobileSidebar] and
    [closeMobileSidebar] dereference unguarded, and two buttons it guards
    with [if]. *)
Record Layout := mkLayout {
  sidebar : nat;                 (* getElementById('sidebar') *)
  sidebarOverlay : nat;          (* getElementById('sidebarOverlay') *)
  mainContent : nat;             (* querySelector('.main-content') *)
  sidebarToggle : bool;          (* getElementById('sidebarToggle') *)
  mobileSidebarClose : bool;     (* getElementById('mobileSidebarClose') *)
  navLinks : list nat;           (* sidebar.querySelectorAll('.nav-link') *)
  href : nat → option string;    (* link.getAttribute('href') *)
  pathname : string              (* window.location.pathname *)
}.

(** The page and [document.body.style.overflow]. *)
Record State := mkState {
  page : Page;
  overflow : string
}.

Inductive Event :=
| ToggleClick
| CloseClick
| OverlayClick
| LinkClick
| Resize (width : Z)
| Keydown (key : string).

Section Handlers.
Variable d : Layout.

Definition isMobile (s : State) : bool := innerWidth (page s) <? 992.

Definition openMobileSidebar (s : State) : State :=
  let p := classList_add (sidebar d) "mobile-open" (page s) in
  let p := classList_add (sidebarOverlay d) "show" p in
  let p := classList_add (mainContent d) "blurred" p in
  mkState p "hidden".

Definition closeMobileSidebar (s : State) : State :=
  let p := classList_remove (sidebar d) "mobile-open" (page s) in
  let p := classList_remove (sidebarOverlay d) "show" p in
  let p := classList_remove (mainContent d) "blurred" p in
  mkState p "".

Definition setActiveSidebarItem (s : State) : State :=
  mkState
    (foldl
       (λ p link,
          let p := classList_remove link "active" p in
          match href d link with
          | Some h =>
              if negb (String.eqb h "") && String.prefix h (pathname d)
              then classList_add link "active" p
              else p
          | None => p
          end)
       (page s) (navLinks d))
    (overflow s).

(** The [DOMContentLoaded] listener: the listeners are registered and the
    active link is marked. *)
Definition onLoad (s : State) : State := setActiveSidebarItem s.

Definition handle (s : State) (e : Event) : State :=
  match e with
  | ToggleClick =>
      if sidebarToggle d && isMobile s then openMobileSidebar s else s
  | CloseClick => if mobileSidebarClose d then closeMobileSidebar s else s
  | OverlayClick => closeMobileSidebar s
  | LinkClick => if isMobile s then closeMobileSidebar s else s
  | Resize width =>
      let s :=
        mkState (mkPage (elements (page s)) (localStorage (page s)) width)
          (overflow s) in
      if negb (isMobile s) then closeMobileSidebar s else s
  | Keydown key =>
      if String.eqb key "Escape" && isMobile s then closeMobileSidebar s
      else s
  end.

(** The drawer is shut: none of the three marks, and the body scrolls. *)
Definition shut (s : State) : Prop :=
  ("mobile-open" ∉ classes (page s) (sidebar d))
  ∧ ("show" ∉ classes (page s) (sidebarOverlay d))
  ∧ ("blurred" ∉ classes (page s) (mainContent d))
  ∧ overflow s = "".

(** The drawer is out: all three marks, and the body does not scroll. *)
Definition out (s : State) : Prop :=
  "mobile-open" ∈ classes (page s) (sidebar d)
  ∧ "show" ∈ classes (page s) (sidebarOverlay d)
  ∧ "blurred" ∈ classes (page s) (mainContent d)
  ∧ overflow s = "hidden".

(** The three elements are elements of the page. *)
Definition found (s : State) : Prop :=
  is_Some (elements (page s) !! sidebar d)
  ∧ is_Some (elements (page s) !! sidebarOverlay d)
  ∧ is_Some (elements (page s) !! mainContent d).

(** What every event keeps: the three elements are there, the drawer is
    either shut or out, and it is shut on a window of 992 pixels or
    more. *)
Definition steady (s : State) : Prop :=
  found s
  ∧ (shut s ∨ out s)
  ∧ (992 ≤ innerWidth (page s) → shut s).
End Handlers.

End MobileSidebar.

(** ** What the callers are told *)

Module Claimed.

(** The icon table as it is documented: four named types and a default. *)
Definition icon_name (type : string) : string :=
  if String.eqb type "success" then "check-circle"
  else if String.eqb type "error" then "exclamation-circle"
  else if String.eqb type "warning" then "exclamation-triangle"
  else if String.eqb type "info" then "info-circle"
  else "info-circle".

(** [n unit(s) ago] *)
Definition counted (n : Z) (unit : string) : string :=
  String.append
    (String.append
       (String.append (JS.Number_toString (JS.Num n)) (String.append " " unit))
       (if 1 <? n then "s" else ""))
    " ago".

(** The elapsed time in words: under a minute it is "Just now", otherwise
    the count of the largest whole unit among days, hours and minutes. *)
Definition time_ago (elapsed_ms : Z) : string :=
  if elapsed_ms <? 60000 then "Just now"
  else if 86400000 <=? elapsed_ms then counted (elapsed_ms / 86400000) "day"
  else if 3600000 <=? elapsed_ms then counted (elapsed_ms / 3600000) "hour"
  else counted (elapsed_ms / 60000) "minute".

End Claimed.

(** ** Sample pages and incidents *)

Module Examples.
Import Dom Sidebar Core.

(** A required input holding two spaces. *)
Definition spaces_only : Element :=
  mkElement {[ "required" := "" ]} ["form-control"] (Some (units "  ")) "".

(** A required input that is filled in and still flagged from an earlier
    attempt. *)
Definition flagged_name : Element :=
  mkElement {[ "required" := "" ]} ["form-control"; "is-invalid"]
    (Some (units "Ada")) "".

(** A [div] that carries the [required] attribute: it has no [value]. *)
Definition required_div : Element :=
  mkElement {[ "required" := "" ]} ["form-group"] None "".

(** A page with a sidebar, a main area and one navigation link. *)
Definition layout0 : Layout :=
  mkLayout 0 1 [2%nat] (λ _, "Dashboard") (λ _, Some "/dashboard")
    (λ _, None) "/dashboard/overview"
    (insert "data-bs-original-title" "") (delete "aria-describedby").

Definition page0 (sidebarClasses : list string) (stored : gmap string string)
    (width : Z) : Page :=
  mkPage
    {[ 0%nat := mkElement ∅ sidebarClasses None "";
       1%nat := mkElement ∅ ["main-content"] None "";
       2%nat := mkElement ∅ ["nav-link"] None "" ]}
    stored width.

(** The staff of a campus and a theft reported at Block B with one
    photograph. *)
Definition chief : Actor := mkActor 1 administrator None.
Definition block_b_manager : Actor := mkActor 2 manager (Some "Block B").
Definition gate_manager : Actor := mkActor 3 manager (Some "Main Gate").
Definition onlooker : Actor := mkActor 4 viewer (Some "Block B").

Definition staff0 : list Actor :=
  [chief; block_b_manager; gate_manager; onlooker].

Definition config0 : AlertConfig := mkAlertConfig 70 [cult_activity].

Definition theft_report (sev : Z) : Report :=
  mkReport evidence_upload "Block B" theft (Some sev) sev [(1%nat, "evidence/1")].

Definition empty_system : System := mkSystem ∅ [] 0.

(** Analysis succeeds, redaction fails, the incident is triaged, assigned
    and taken up. *)
Definition script0 : list (Actor * Z * Command) :=
  [ (block_b_manager, 10, RecordAnalysis 1 (analysis_done 40));
    (block_b_manager, 11, RecordRedaction 1 None);
    (block_b_manager, 20, Advance triaged);
    (onlooker, 21, Unlock 1);
    (block_b_manager, 30, Advance investigating);
    (block_b_manager, 31, Assign 9);
    (block_b_manager, 32, Advance investigating) ].

Definition photo_pending : EvidenceItem :=
  mkEvidence 1 "evidence/1" (analysis_done 40) redaction_pending.

End Examples.

(** ** Scenarios and sample pages for the further properties *)

Module Samples.
Import Dom Sidebar.

(** The descendants of the form after [n] submissions in a row. *)
Definition resubmitted (e : Event) (n : nat) (els : list Element) : list Element :=
  Nat.iter n (λ l, Main.form (Main.onSubmit l e)) els.

(** A button that names its spinner by id, and the spinner. *)
Definition spinner_page : Page :=
  mkPage
    {[ 0%nat := mkElement {[ "hx-indicator" := "#spinner" ]} ["btn"] (Some []) "";
       1%nat := mkElement {[ "id" := "spinner" ]} ["fas"; "fa-sync"] None "" ]}
    ∅ 1280.

Definition by_id (p : Page) (selector : string) : option nat :=
  if String.eqb selector "#spinner" then Some 1%nat else None.

(** An empty flash container, and a run in which a first message is
    closed by a click and then again by its timer while a second one
    stays. *)
Definition flash_empty : Flash.State := Flash.mkState ∅ [] ∅ [] [] [].

(** Two messages shown on the empty container, and what happens after the
    first of them has been taken out. *)
Definition flash_shown : Flash.State :=
  foldl Flash.handle (Flash.setupExistingMessages flash_empty)
    [ Flash.Show "Saved" (Some "success") ∅;
      Flash.Show "Camera offline" None {[ "autoDismiss" := Flash.OBool false ]};
      Flash.CloseClick 0 ].

Definition flash_later : list Flash.Event :=
  [ Flash.Fire 0; Flash.Show "Saved again" None ∅; Flash.Fire 0;
    Flash.CloseClick 0; Flash.ClearAll ].

Definition flash_events : list Flash.Event :=
  [ Flash.Show "Saved" (Some "success") ∅;
    Flash.Show "Camera offline" None {[ "autoDismiss" := Flash.OBool false ]};
    Flash.CloseClick 0; Flash.Fire 0; Flash.Fire 0; Flash.Fire 0 ].

(** A narrow page with a sidebar, a main area, a navigation link and an
    overlay; the controls of the collapse script and the layout of the
    drawer script on it; and a run of events for each. *)
Definition drawer_page : Page :=
  mkPage
    {[ 0%nat := mkElement ∅ ["sidebar"] None "";
       1%nat := mkElement ∅ ["main-content"] None "";
       2%nat := mkElement ∅ ["nav-link"] None "";
       3%nat := mkElement ∅ ["sidebar-overlay"] None "" ]}
    ∅ 800.

Definition controls0 : SidebarEvents.Controls :=
  SidebarEvents.mkControls true true (Some 3%nat).

Definition sidebar_events : list SidebarEvents.Event :=
  [ SidebarEvents.MobileToggleClick; SidebarEvents.Keydown true "b";
    SidebarEvents.Keydown false "Escape"; SidebarEvents.MobileToggleClick;
    SidebarEvents.Resize 1200; SidebarEvents.OverlayClick ].

Definition drawer_layout : MobileSidebar.Layout :=
  MobileSidebar.mkLayout 0 3 1 true true [2%nat] (λ _, Some "/dashboard")
    "/dashboard/overview".

Definition drawer_state : MobileSidebar.State :=
  MobileSidebar.mkState drawer_page "".

Definition drawer_events : list MobileSidebar.Event :=
  [ MobileSidebar.ToggleClick; MobileSidebar.Keydown "Enter";
    MobileSidebar.Resize 1200; MobileSidebar.ToggleClick;
    MobileSidebar.Resize 600; MobileSidebar.ToggleClick ].

End Samples.

(** ** Proof tools *)

(** Settles a test [0 <? x / k] from the bounds on [x] at hand. *)
Ltac floor_sign :=
  match goal with
  | |- context [0 <? ?x / ?k] =>
      first
        [ replace (0 <? x / k) with true
            by (symmetry; apply Z.ltb_lt; Z.div_mod_to_equations; lia)
        | replace (0 <? x / k) with false
            by (symmetry; apply Z.ltb_ge; Z.div_mod_to_equations; lia) ]
  end.

(** * Properties of [main.js] *)

Section MainJS.
Import JS Dom Main Examples.

(** ** [getIconForType] *)

Lemma getIconForType_own (type : string) :
  assoc type (own_properties Object_prototype) = None →
  getIconForType type = VString (Claimed.icon_name type).
Proof.
  unfold getIconForType, Claimed.icon_name, icons, literal. simpl.
  repeat match goal with
    | |- context [String.eqb ?k ?s] =>
        destruct (String.eqb_spec k s) as [-> | ?];
        [simpl; first [discriminate | intros _; reflexivity] |]
    end.
  intros _. reflexivity.
Qed.

Example getIconForType_named :
  map getIconForType ["success"; "error"; "warning"; "info"; "danger"; ""]
  = map VString
      ["check-circle"; "exclamation-circle"; "exclamation-triangle";
       "info-circle"; "info-circle"; "info-circle"].
Proof. reflexivity. Qed.

(** C9: the lookup [icons[type]] walks the prototype chain, so a type
    named like a member of [Object.prototype] gets that member instead of
    the default icon name; at "constructor" the result is the [Object]
    function. *)
Theorem getIconForType_inherited :
  getIconForType "constructor" = VFunction "Object"
  ∧ getIconForType "constructor" ≠ VString (Claimed.icon_name "constructor").
Proof. split; [reflexivity | discriminate]. Qed.

(** ** [formatTimeAgo] *)

(** Up to 2^53 a difference is exact; beyond, it stays beyond. *)
Lemma toDouble_small z : Z.abs z ≤ 2 ^ 53 → toDouble z = z.
Proof.
  intros H. unfold toDouble. destruct (Z.leb_spec (Z.abs z) (2 ^ 53)); [reflexivity | lia].
Qed.

Lemma toDouble_large a :
  2 ^ 53 < a →
  let e := Z.log2 a - 52 in
  ∀ up : bool, 2 ^ 53 ≤ (if up then a / 2 ^ e + 1 else a / 2 ^ e) * 2 ^ e.
Proof.
  intros Ha e up.
  assert (H53 : 53 ≤ Z.log2 a) by (apply Z.log2_le_pow2; lia).
  assert (He : 1 ≤ e) by (unfold e; lia).
  destruct (Z.log2_spec a ltac:(lia)) as [Hlo _].
  replace (Z.log2 a) with (52 + e) in Hlo by (unfold e; lia).
  rewrite Z.pow_add_r in Hlo by lia.
  assert (Hpos : 0 < 2 ^ e) by (apply Z.pow_pos_nonneg; lia).
  assert (Hq : 2 ^ 52 ≤ a / 2 ^ e) by (apply Z.div_le_lower_bound; lia).
  assert (H2 : 2 ≤ 2 ^ e).
  { change 2 with (2 ^ 1) at 1. apply Z.pow_le_mono_r; lia. }
  change (2 ^ 53) with (2 ^ 52 * 2).
  destruct up; nia.
Qed.

Lemma toDouble_above z : 2 ^ 53 < z → 2 ^ 53 ≤ toDouble z.
Proof.
  intros H. unfold toDouble. rewrite Z.abs_eq by lia.
  destruct (Z.leb_spec z (2 ^ 53)); [lia |].
  rewrite Z.sgn_pos by lia. rewrite Z.mul_1_l. apply toDouble_large. exact H.
Qed.

Lemma toDouble_below z : z < - 2 ^ 53 → toDouble z ≤ - 2 ^ 53.
Proof.
  intros H. unfold toDouble. rewrite Z.abs_neq by lia.
  destruct (Z.leb_spec (- z) (2 ^ 53)); [lia |].
  rewrite Z.sgn_neg by lia.
  pose proof (toDouble_large (- z) ltac:(lia)
    ((2 ^ (Z.log2 (- z) - 52 - 1) <? - z mod 2 ^ (Z.log2 (- z) - 52))
     || ((- z mod 2 ^ (Z.log2 (- z) - 52) =? 2 ^ (Z.log2 (- z) - 52 - 1))
         && Z.odd (- z / 2 ^ (Z.log2 (- z) - 52))))) as Hl.
  cbv zeta in Hl. lia.
Qed.

Lemma toDouble_le c z :
  - 2 ^ 53 < c ≤ 2 ^ 53 → (c ≤ toDouble z ↔ c ≤ z).
Proof.
  intros Hc.
  destruct (Z.le_gt_cases (Z.abs z) (2 ^ 53)) as [Hs | Hb].
  - rewrite toDouble_small by exact Hs. reflexivity.
  - destruct (Z.le_gt_cases 0 z).
    + pose proof (toDouble_above z ltac:(lia)) as Ha.
      set (d := toDouble z) in *. clearbody d. lia.
    + pose proof (toDouble_below z ltac:(lia)) as Ha.
      set (d := toDouble z) in *. clearbody d. lia.
Qed.

Lemma nested_floor (x : Z) :
  x / 1000 / 60 = x / 60000
  ∧ x / 1000 / 60 / 60 = x / 3600000
  ∧ x / 1000 / 60 / 60 / 24 = x / 86400000.
Proof. repeat split; Z.div_mod_to_equations; lia. Qed.

Example formatTimeAgo_samples :
  map (λ elapsed, formatTimeAgo (λ _, Num 0) elapsed "1970-01-01T00:00:00Z")
    [ -5000; 0; 59999; 60000; 119999; 120000; 3599999; 3600000; 7200000;
      86399999; 86400000; 172800000 ]
  = [ "Just now"; "Just now"; "Just now"; "1 minute ago"; "1 minute ago";
      "2 minutes ago"; "59 minutes ago"; "1 hour ago"; "2 hours ago";
      "23 hours ago"; "1 day ago"; "2 days ago" ].
Proof. reflexivity. Qed.

(** A string that is no date gives [NaN], every comparison fails, and the
    answer is "Just now". *)
Lemma formatTimeAgo_invalid Date_parse now dateString :
  Date_parse dateString = NaN →
  formatTimeAgo Date_parse now dateString = "Just now".
Proof. intros H. unfold formatTimeAgo. rewrite H. reflexivity. Qed.

Lemma formatTimeAgo_time_ago Date_parse now dateString t :
  Date_parse dateString = Num t →
  formatTimeAgo Date_parse now dateString
    = Claimed.time_ago (toDouble (now - t)).
Proof.
  intros Hparse.
  unfold formatTimeAgo, Claimed.time_ago, Claimed.counted. rewrite Hparse.
  cbn [sub floor_div gt concat_num].
  destruct (nested_floor (toDouble (now - t))) as (Hm & Hh & Hd).
  rewrite Hd, Hh, Hm. set (x := toDouble (now - t)).
  destruct (Z.ltb_spec x 60000) as [Hlt | Hge].
  - repeat floor_sign. reflexivity.
  - destruct (Z.leb_spec 86400000 x) as [Hd1 | Hd0].
    + floor_sign. reflexivity.
    + destruct (Z.leb_spec 3600000 x) as [Hh1 | Hh0];
        repeat floor_sign; reflexivity.
Qed.

(** C8: on a string that parses to the time [t], no further than 2^53
    milliseconds from the clock (any date at all, while the clock reads
    less than 2^53 - 8.64e15, which it does until the year 13606),
    [formatTimeAgo] answers "Just now" while less than 60 seconds have
    elapsed (a time in the future included), and otherwise counts the
    largest whole unit among days, hours and minutes, with a plural "s"
    exactly above one. *)
Theorem formatTimeAgo_correct Date_parse now dateString t :
  Date_parse dateString = Num t →
  Z.abs (now - t) ≤ 2 ^ 53 →
  (now - t < 60000 → formatTimeAgo Date_parse now dateString = "Just now")
  ∧ (60000 ≤ now - t →
     let elapsed := now - t in
     formatTimeAgo Date_parse now dateString =
       if 86400000 <=? elapsed then Claimed.counted (elapsed / 86400000) "day"
       else if 3600000 <=? elapsed then Claimed.counted (elapsed / 3600000) "hour"
       else Claimed.counted (elapsed / 60000) "minute")
  ∧ formatTimeAgo Date_parse now dateString = Claimed.time_ago (now - t).
Proof.
  intros Hparse Hnear.
  pose proof (formatTimeAgo_time_ago Date_parse now dateString t Hparse) as Heq.
  rewrite (toDouble_small _ Hnear) in Heq.
  rewrite Heq. unfold Claimed.time_ago. repeat split.
  - intros Hlt. destruct (Z.ltb_spec (now - t) 60000); [reflexivity | lia].
  - intros Hge. destruct (Z.ltb_spec (now - t) 60000); [lia | reflexivity].
Qed.

Lemma formatTimeAgo_correct_witness :
  formatTimeAgo (λ _, Num 1700000000000) 1700000125000 "2023-11-14T22:13:20Z"
  = "2 minutes ago".
Proof.
  destruct (formatTimeAgo_correct (λ _, Num 1700000000000) 1700000125000
              "2023-11-14T22:13:20Z" 1700000000000 eq_refl ltac:(simpl; lia))
    as (_ & _ & H).
  rewrite H. reflexivity.
Defined.

(** With the clock at the last instant a [Date] can hold and a date one
    millisecond after the first, 17279999999999999 ms have elapsed, one
    short of 200000000 days; the difference is rounded to the even
    neighbour above and the answer counts a day that is not over. *)
Lemma formatTimeAgo_rounded :
  ¬ (∀ (Date_parse : string → Number) (now : Z) (dateString : string) (t : Z),
       Date_parse dateString = Num t →
       (now - t < 60000 → formatTimeAgo Date_parse now dateString = "Just now")
       ∧ (60000 ≤ now - t →
          let elapsed := now - t in
          formatTimeAgo Date_parse now dateString =
            if 86400000 <=? elapsed
            then Claimed.counted (elapsed / 86400000) "day"
            else if 3600000 <=? elapsed
            then Claimed.counted (elapsed / 3600000) "hour"
            else Claimed.counted (elapsed / 60000) "minute")).
Proof.
  intros H.
  destruct (H (λ _, Num (-8639999999999999)) 8640000000000000
              "-271821-04-20T00:00:00.001Z" (-8639999999999999) eq_refl)
    as [_ Hcount].
  specialize (Hcount ltac:(lia)). vm_compute in Hcount. discriminate Hcount.
Qed.

(** ** The submit listener *)

Lemma trimStart_nil (s : DOMString) :
  trimStart s = [] ↔ forallb isWhiteSpace s = true.
Proof.
  induction s as [| c s IH]; simpl; [tauto |].
  destruct (isWhiteSpace c); simpl; [exact IH |].
  split; discriminate.
Qed.

Lemma trimStart_head (s : DOMString) c rest :
  trimStart s = c :: rest → isWhiteSpace c = false.
Proof.
  induction s as [| a s IH]; simpl; [discriminate |].
  destruct (isWhiteSpace a) eqn:E; [exact IH |].
  intros [= <- _]. exact E.
Qed.

Lemma forallb_rev {A} (f : A → bool) (l : list A) :
  forallb f (rev l) = forallb f l.
Proof.
  induction l as [| a l IH]; simpl; [reflexivity |].
  rewrite forallb_app, IH. simpl. rewrite andb_true_r. apply andb_comm.
Qed.

Example trim_sample :
  trim (units "  a b ") = units "a b" ∧ trim [9; 160; 8232; 65279]%N = [].
Proof. split; reflexivity. Qed.

(** Trimming leaves nothing exactly when every code unit is white
    space. *)
Lemma trim_nil (s : DOMString) :
  trim s = [] ↔ forallb isWhiteSpace s = true.
Proof.
  unfold trim, trimEnd. split.
  - intros H. apply (f_equal (@rev N)) in H. rewrite rev_involutive in H.
    simpl in H. apply trimStart_nil in H. rewrite forallb_rev in H.
    destruct (trimStart s) as [| c rest] eqn:E.
    + apply trimStart_nil. exact E.
    + apply trimStart_head in E. simpl in H. rewrite E in H. discriminate.
  - intros H. apply trimStart_nil in H. rewrite H. reflexivity.
Qed.

Lemma truthy_false (s : DOMString) : truthy s = false ↔ s = [].
Proof. destruct s; simpl; split; congruence. Qed.

Lemma checkField_mark (f : Element) (v : bool) (x : DOMString) :
  hasAttribute "required" f = true → value f = Some x →
  checkField f v = Some (mark f, v && truthy (trim x)).
Proof.
  intros Hreq Hx. unfold checkField, mark. rewrite Hreq, Hx.
  destruct (truthy (trim x)); simpl;
    [rewrite andb_true_r | rewrite andb_false_r]; reflexivity.
Qed.

Lemma checkRequired_spec (els : list Element) (v : bool) :
  controls els →
  checkRequired els v = (map mark els, Some (v && forallb filled els)).
Proof.
  intros Hc. revert v. induction Hc as [| f els Hf _ IH]; intros v;
    cbn [checkRequired map forallb].
  - rewrite andb_true_r. reflexivity.
  - destruct (hasAttribute "required" f) eqn:Hreq.
    + destruct (value f) as [x |] eqn:Hx;
        [| exfalso; apply Hf; split; assumption].
      rewrite (checkField_mark f v x Hreq Hx), IH.
      assert (filled f = truthy (trim x)) as ->
        by (unfold filled; rewrite Hreq, Hx; reflexivity).
      rewrite andb_assoc. reflexivity.
    + rewrite IH.
      assert (filled f = true) as -> by (unfold filled; rewrite Hreq; reflexivity).
      assert (mark f = f) as -> by (unfold mark; rewrite Hreq; reflexivity).
      reflexivity.
Qed.

(** At a required element without a string value the loop ends in an
    exception. *)
Lemma checkRequired_throws (els : list Element) (v : bool) :
  Exists valueless els → (checkRequired els v).2 = None.
Proof.
  revert v. induction els as [| f els IH]; intros v Hex;
    [inversion Hex |].
  cbn [checkRequired]. unfold checkField.
  destruct (hasAttribute "required" f) eqn:Hreq.
  - destruct (value f) as [x |] eqn:Hx; [| reflexivity].
    assert (Hrest : Exists valueless els).
    { apply Exists_cons in Hex as [[_ Habs] | H]; [congruence | exact H]. }
    destruct (negb (truthy (trim x))); cbn iota beta.
    + specialize (IH false Hrest).
      destruct (checkRequired els false) as [r o]. exact IH.
    + specialize (IH v Hrest).
      destruct (checkRequired els v) as [r o]. exact IH.
  - assert (Hrest : Exists valueless els).
    { apply Exists_cons in Hex as [[Habs _] | H]; [congruence | exact H]. }
    specialize (IH v Hrest). destruct (checkRequired els v) as [r o]. exact IH.
Qed.

(** The listener that throws cancels nothing, prepends nothing and
    moves no focus: the form is submitted. *)
Lemma onSubmit_throws (els : list Element) (e : Event) :
  Exists valueless els →
  thrown (onSubmit els e) = true
  ∧ event (onSubmit els e) = e
  ∧ focused (onSubmit els e) = None.
Proof.
  intros Hex. pose proof (checkRequired_throws els true Hex) as H.
  unfold onSubmit. destruct (checkRequired els true) as [els1 o].
  simpl in H. subst o. repeat split.
Qed.

Lemma controls_dec (els : list Element) : controls els ∨ Exists valueless els.
Proof.
  induction els as [| f els [IH | IH]].
  - left. constructor.
  - destruct (hasAttribute "required" f) eqn:Hreq.
    + destruct (value f) as [x |] eqn:Hx.
      * left. constructor; [| exact IH]. intros [_ H]. congruence.
      * right. apply Exists_cons_hd. split; assumption.
    + left. constructor; [| exact IH]. intros [H _]. congruence.
  - right. apply Exists_cons_tl. exact IH.
Qed.

Lemma filled_blank (f : Element) : filled f = false ↔ blank f.
Proof.
  unfold filled, blank. rewrite orb_false_iff, negb_false_iff.
  destruct (value f) as [x |].
  - change (trim <$> Some x) with (Some (trim x)). rewrite truthy_false.
    split; intros [H1 H2]; (split; [exact H1 |]).
    + rewrite H2. reflexivity.
    + injection H2 as H2. exact H2.
  - split; intros [_ H]; discriminate H.
Qed.

Lemma forallb_filled (els : list Element) :
  forallb filled els = false ↔ Exists blank els.
Proof.
  induction els as [| f els IH]; simpl.
  - split; [discriminate | intros H; inversion H].
  - rewrite andb_false_iff, Exists_cons, IH, filled_blank. reflexivity.
Qed.

Lemma mark_blank (f : Element) :
  blank f → mark f = with_classList (add "is-invalid") f.
Proof.
  intros [Hreq Hempty]. unfold mark. rewrite Hreq.
  destruct (value f) as [x |]; [| discriminate Hempty].
  simpl in Hempty. injection Hempty as ->. reflexivity.
Qed.

Lemma mark_filled (f : Element) :
  ¬ valueless f → ¬ blank f →
  mark f = if hasAttribute "required" f
           then with_classList (remove "is-invalid") f else f.
Proof.
  intros Hv Hnb. unfold mark.
  destruct (hasAttribute "required" f) eqn:Hreq; [| reflexivity].
  destruct (value f) as [x |] eqn:Hx; [| exfalso; apply Hv; split; assumption].
  destruct (truthy (trim x)) eqn:Ht; [reflexivity |].
  exfalso. apply Hnb. split; [exact Hreq |].
  rewrite Hx. simpl. f_equal. apply truthy_false. exact Ht.
Qed.

Lemma elem_of_add (c x : string) (l : list string) :
  x ∈ add c l ↔ x = c ∨ x ∈ l.
Proof.
  unfold add. destruct (decide (c ∈ l)) as [Hin | Hout].
  - split; [auto | intros [-> | H]; assumption].
  - rewrite elem_of_app, list_elem_of_singleton. tauto.
Qed.

Lemma elem_of_remove (c x : string) (l : list string) :
  x ∈ remove c l ↔ x ≠ c ∧ x ∈ l.
Proof. unfold remove. rewrite list_elem_of_filter. reflexivity. Qed.

(** C7: on a form whose required elements are controls with a string
    value, a submission with a required field that is empty once trimmed
    is stopped at the form: the listener cancels the event and stops its
    propagation, gives every such field the class [is-invalid] and
    prepends the message, a [div] of the classes [alert], [alert-danger]
    and [mt-3] that reads "Please fill in all required fields." after an
    icon; a submission without such a field leaves the event as it was
    and prepends nothing. *)
Theorem submit_validation (els : list Element) (e : Event) :
  controls els →
  (Exists blank els →
     defaultPrevented (event (onSubmit els e)) = true
     ∧ propagationStopped (event (onSubmit els e)) = true
     ∧ form (onSubmit els e)
       = mkElement ∅ ["alert"; "alert-danger"; "mt-3"] None
           ("<i class=" +:+ quote +:+ "fas fa-exclamation-circle me-2"
            +:+ quote +:+ "></i>Please fill in all required fields.")
         :: map mark els
     ∧ ∀ f, f ∈ els → blank f →
         mark f = with_classList (add "is-invalid") f
         ∧ "is-invalid" ∈ classList (mark f))
  ∧ (Forall (λ f, ¬ blank f) els →
     event (onSubmit els e) = e
     ∧ form (onSubmit els e) =
         map (λ f, if hasAttribute "required" f
                   then with_classList (remove "is-invalid") f else f) els).
Proof.
  intros Hc. unfold onSubmit. rewrite (checkRequired_spec els true Hc).
  rewrite andb_true_l. split.
  - intros Hex. apply forallb_filled in Hex. rewrite Hex. simpl.
    repeat split.
    + apply mark_blank. assumption.
    + rewrite (mark_blank f) by assumption. simpl. apply elem_of_add. auto.
  - intros Hall.
    destruct (forallb filled els) eqn:Hf.
    + simpl. split; [reflexivity |]. apply map_ext_in. intros f Hin.
      apply list_elem_of_In in Hin. unfold controls in Hc.
      rewrite Forall_forall in Hc, Hall.
      apply mark_filled; [apply Hc | apply Hall]; exact Hin.
    + apply forallb_filled in Hf. exfalso.
      apply Exists_exists in Hf. destruct Hf as (f & Hin & Hb).
      rewrite Forall_forall in Hall. exact (Hall f Hin Hb).
Qed.

(** Two required inputs, the first filled and flagged from an earlier
    attempt, the second holding spaces: the flag moves to the second, the
    message comes first and the second input (now at position 2) gets the
    focus. *)
Example onSubmit_sample :
  let r := onSubmit [flagged_name; spaces_only] (mkEvent false false) in
  map classList (form r)
    = [ ["alert"; "alert-danger"; "mt-3"]; ["form-control"];
        ["form-control"; "is-invalid"] ]
  ∧ event r = mkEvent true true
  ∧ focused r = Some 2%nat
  ∧ thrown r = false.
Proof. repeat split. Qed.

(** A required [div] ahead of an empty input: the listener throws at the
    [div] and the empty input goes through unmarked. *)
Example onSubmit_thrown_sample :
  let r := onSubmit [required_div; spaces_only] (mkEvent false false) in
  thrown r = true
  ∧ event r = mkEvent false false
  ∧ form r = [required_div; spaces_only].
Proof. repeat split. Qed.

Lemma submit_validation_witness :
  defaultPrevented
    (event (onSubmit [flagged_name; spaces_only] (mkEvent false false))) = true
  ∧ event (onSubmit [flagged_name] (mkEvent false false)) = mkEvent false false.
Proof.
  split.
  - apply (proj1 (submit_validation [flagged_name; spaces_only]
                    (mkEvent false false)
                    ltac:(repeat constructor; intros [_ H]; discriminate H))).
    apply Exists_cons_tl, Exists_cons_hd. split; reflexivity.
  - apply (proj2 (submit_validation [flagged_name] (mkEvent false false)
                    ltac:(repeat constructor; intros [_ H]; discriminate H))).
    constructor; [| constructor].
    intros [_ Hempty]. discriminate Hempty.
Defined.

(** A form with a required [div] ahead of an empty required input has a
    required field that is empty once trimmed, and its submission is not
    cancelled: the listener throws at the [div]. *)
Lemma onSubmit_required_div :
  ¬ (∀ (els : list Element) (e : Event),
       Exists blank els →
       defaultPrevented (event (onSubmit els e)) = true).
Proof.
  intros H.
  assert (Hblank : Exists blank [required_div; spaces_only]).
  { apply Exists_cons_tl, Exists_cons_hd. split; reflexivity. }
  specialize (H [required_div; spaces_only] (mkEvent false false) Hblank).
  discriminate H.
Qed.

End MainJS.

(** * Properties of [sidebar.js] *)

Section SidebarJS.
Import Dom Sidebar.

Lemma keeps_refl c p : keeps c p p.
Proof. repeat split; auto. Qed.

Lemma keeps_trans c p q r : keeps c p q → keeps c q r → keeps c p r.
Proof.
  intros (Hc1 & Hs1 & Hw1) (Hc2 & Hs2 & Hw2). repeat split; try congruence.
  - intros H. apply Hc1, Hc2, H.
  - intros H. apply Hc2, Hc1, H.
Qed.

Lemma classes_update (id id' : nat) (f : Element → Element) (p : Page) :
  classes (update id f p) id' =
    if decide (id = id') then
      match elements p !! id with
      | Some el => classList (f el)
      | None => []
      end
    else classes p id'.
Proof.
  unfold classes, update. simpl. rewrite lookup_alter.
  destruct (decide (id = id')) as [-> | Hne]; [| reflexivity].
  destruct (elements p !! id'); reflexivity.
Qed.

Lemma keeps_update c id f p :
  (∀ el, c ∈ classList (f el) ↔ c ∈ classList el) → keeps c p (update id f p).
Proof.
  intros Hf. repeat split; try reflexivity; rewrite classes_update;
    destruct (decide (id = id0)) as [<- | Hne]; try tauto;
    unfold classes; destruct (elements p !! id); try tauto; apply Hf.
Qed.

Lemma keeps_add c c' id p : c ≠ c' → keeps c p (classList_add id c' p).
Proof.
  intros Hne. apply keeps_update. intros el. simpl.
  rewrite elem_of_add. tauto.
Qed.

Lemma keeps_remove c c' id p : c ≠ c' → keeps c p (classList_remove id c' p).
Proof.
  intros Hne. apply keeps_update. intros el. simpl.
  rewrite elem_of_remove. tauto.
Qed.

Lemma keeps_foldl {A} c (f : Page → A → Page) (l : list A) :
  (∀ p x, keeps c p (f p x)) → ∀ p, keeps c p (foldl f p l).
Proof.
  intros Hf. induction l as [| x l IH]; intros p; simpl.
  - apply keeps_refl.
  - eapply keeps_trans; [apply Hf | apply IH].
Qed.

Variable d : Layout.

Lemma keeps_updateSidebarTooltips c p : keeps c p (updateSidebarTooltips d p).
Proof.
  unfold updateSidebarTooltips. apply keeps_foldl. clear p. intros p link.
  destruct (_ && _); [| apply keeps_refl].
  apply keeps_update. intros el. reflexivity.
Qed.

Lemma keeps_removeSidebarTooltips c p : keeps c p (removeSidebarTooltips d p).
Proof.
  unfold removeSidebarTooltips. apply keeps_foldl. clear p. intros p link.
  destruct (elements p !! link) as [el |]; [| apply keeps_refl].
  destruct (hasAttribute _ el); [| apply keeps_refl].
  apply keeps_update. intros el'. reflexivity.
Qed.

Lemma keeps_setActiveSidebarItem c p :
  c ≠ "active" → keeps c p (setActiveSidebarItem d p).
Proof.
  intros Hne. unfold setActiveSidebarItem. apply keeps_foldl. clear p.
  intros p link.
  eapply keeps_trans; [apply (keeps_remove c "active" link p Hne) |].
  destruct (href d link) as [h |]; [| apply keeps_refl].
  destruct (_ && _); [| apply keeps_refl].
  eapply keeps_trans; [apply keeps_add, Hne |].
  destruct (dropdownToggle d link); [apply keeps_add, Hne | apply keeps_refl].
Qed.

Lemma classes_setItem k v p id : classes (setItem k v p) id = classes p id.
Proof. reflexivity. Qed.

Lemma collapsed_after_add p :
  is_Some (elements p !! sidebar d) →
  "collapsed" ∈ classes (classList_add (sidebar d) "collapsed" p) (sidebar d).
Proof.
  intros [el Hel]. unfold classList_add. rewrite classes_update.
  destruct (decide (sidebar d = sidebar d)); [| congruence].
  rewrite Hel. simpl. apply elem_of_add. auto.
Qed.

Lemma collapsed_after_remove p :
  "collapsed" ∉ classes (classList_remove (sidebar d) "collapsed" p) (sidebar d).
Proof.
  unfold classList_remove. rewrite classes_update.
  destruct (decide (sidebar d = sidebar d)); [| congruence].
  destruct (elements p !! sidebar d); simpl.
  - rewrite elem_of_remove. tauto.
  - apply not_elem_of_nil.
Qed.

(** [collapseSidebar] leaves the class on the sidebar and "true" in
    storage. *)
Lemma collapseSidebar_spec p :
  is_Some (elements p !! sidebar d) →
  getItem "sidebarCollapsed" (collapseSidebar d p) = Some "true"
  ∧ "collapsed" ∈ classes (collapseSidebar d p) (sidebar d)
  ∧ innerWidth (collapseSidebar d p) = innerWidth p.
Proof.
  intros Hsb. unfold collapseSidebar.
  set (p1 := classList_add (sidebar d) "collapsed" p).
  set (p2 := classList_add (mainContent d) "expanded" p1).
  set (p3 := setItem "sidebarCollapsed" "true" p2).
  destruct (keeps_updateSidebarTooltips "collapsed" p3) as (Hc & Hs & Hw).
  unfold getItem. rewrite Hs, Hw. repeat split.
  - apply lookup_insert_eq.
  - apply Hc. unfold p3. rewrite classes_setItem.
    apply (keeps_add "collapsed" "expanded" (mainContent d) p1); [discriminate |].
    apply collapsed_after_add, Hsb.
Qed.

(** [expandSidebar] takes the class off and leaves "false" in storage. *)
Lemma expandSidebar_spec p :
  getItem "sidebarCollapsed" (expandSidebar d p) = Some "false"
  ∧ "collapsed" ∉ classes (expandSidebar d p) (sidebar d).
Proof.
  unfold expandSidebar.
  set (p1 := classList_remove (sidebar d) "collapsed" p).
  set (p2 := classList_remove (mainContent d) "expanded" p1).
  set (p3 := setItem "sidebarCollapsed" "false" p2).
  destruct (keeps_removeSidebarTooltips "collapsed" p3) as (Hc & Hs & Hw).
  unfold getItem. rewrite Hs. split.
  - apply lookup_insert_eq.
  - rewrite Hc. intros Hin. apply (collapsed_after_remove p).
    apply (keeps_remove "collapsed" "expanded" (mainContent d) p1); [discriminate |].
    exact Hin.
Qed.

(** After the load handler the sidebar is collapsed exactly on a wide
    window on which either the stored preference or the served markup
    says so. *)
Lemma onLoad_collapsed p :
  is_Some (elements p !! sidebar d) →
  "collapsed" ∈ classes (onLoad d p) (sidebar d)
  ↔ 992 < innerWidth p
    ∧ (getItem "sidebarCollapsed" p = Some "true"
       ∨ "collapsed" ∈ classes p (sidebar d)).
Proof.
  intros Hsb. unfold onLoad.
  set (p1 := if bool_decide (getItem "sidebarCollapsed" p = Some "true")
             then collapseSidebar d p else p).
  assert (Hw1 : innerWidth p1 = innerWidth p).
  { unfold p1. case_bool_decide; [apply collapseSidebar_spec, Hsb | reflexivity]. }
  assert (H1 : "collapsed" ∈ classes p1 (sidebar d)
               ↔ getItem "sidebarCollapsed" p = Some "true"
                 ∨ "collapsed" ∈ classes p (sidebar d)).
  { unfold p1. case_bool_decide as Hst.
    - pose proof (collapseSidebar_spec p Hsb) as (_ & Hc & _). tauto.
    - tauto. }
  set (p2 := handleResize d p1).
  assert (H2 : "collapsed" ∈ classes p2 (sidebar d)
               ↔ 992 < innerWidth p ∧ "collapsed" ∈ classes p1 (sidebar d)).
  { unfold p2, handleResize. rewrite Hw1.
    destruct (Z.leb_spec (innerWidth p) 992) as [Hle | Hgt].
    - pose proof (collapsed_after_remove p1) as Hout.
      pose proof (proj1 (keeps_remove "collapsed" "expanded" (mainContent d)
                           (classList_remove (sidebar d) "collapsed" p1)
                           ltac:(discriminate)) (sidebar d)) as Hk.
      split; [tauto | lia].
    - tauto. }
  set (p3 := setActiveSidebarItem d p2).
  assert (H3 : "collapsed" ∈ classes p3 (sidebar d)
               ↔ "collapsed" ∈ classes p2 (sidebar d)).
  { apply (keeps_setActiveSidebarItem "collapsed" p2). discriminate. }
  assert (H4 : "collapsed" ∈ classes
                 (if contains "collapsed" (classes p3 (sidebar d))
                  then updateSidebarTooltips d p3 else p3) (sidebar d)
               ↔ "collapsed" ∈ classes p3 (sidebar d)).
  { destruct (contains _ _); [| reflexivity].
    apply (keeps_updateSidebarTooltips "collapsed" p3). }
  rewrite H4, H3, H2, H1. reflexivity.
Qed.

(** The toggle button flips the sidebar, and the stored value follows. *)
Lemma onToggleClick_tracks p :
  is_Some (elements p !! sidebar d) →
  getItem "sidebarCollapsed" (onToggleClick d p) = Some "true"
  ↔ "collapsed" ∈ classes (onToggleClick d p) (sidebar d).
Proof.
  intros Hsb. unfold onToggleClick.
  destruct (contains "collapsed" (classes p (sidebar d))).
  - destruct (expandSidebar_spec p) as [Hst Hcl]. rewrite Hst.
    split; [discriminate | contradiction].
  - destruct (collapseSidebar_spec p Hsb) as (Hst & Hcl & _). tauto.
Qed.

(** C10: [collapseSidebar] leaves "true" under the storage key
    [sidebarCollapsed] and the class [collapsed] on the sidebar;
    [expandSidebar] leaves "false" and takes the class off; a page load on
    a window wider than 992 pixels, from markup that does not already
    carry the class, ends collapsed exactly when "true" is stored, so the
    choice made on one page is the state of the next; at 992 pixels or
    less the load always ends with the class removed. *)
Theorem sidebar_preference p :
  present d p →
  (getItem "sidebarCollapsed" (collapseSidebar d p) = Some "true"
   ∧ "collapsed" ∈ classes (collapseSidebar d p) (sidebar d))
  ∧ (getItem "sidebarCollapsed" (expandSidebar d p) = Some "false"
     ∧ "collapsed" ∉ classes (expandSidebar d p) (sidebar d))
  ∧ (992 < innerWidth p →
     "collapsed" ∉ classes p (sidebar d) →
     ("collapsed" ∈ classes (onLoad d p) (sidebar d)
      ↔ getItem "sidebarCollapsed" p = Some "true"))
  ∧ (innerWidth p ≤ 992 → "collapsed" ∉ classes (onLoad d p) (sidebar d))
  ∧ (∀ q, present d q →
          992 < innerWidth q →
          "collapsed" ∉ classes q (sidebar d) →
          (localStorage q = localStorage (collapseSidebar d p) →
           "collapsed" ∈ classes (onLoad d q) (sidebar d))
          ∧ (localStorage q = localStorage (expandSidebar d p) →
             "collapsed" ∉ classes (onLoad d q) (sidebar d))).
Proof.
  intros [Hsb _].
  pose proof (collapseSidebar_spec p Hsb) as (Hcs & Hcc & _).
  pose proof (expandSidebar_spec p) as (Hes & Hec).
  split; [tauto |]. split; [tauto |]. split; [| split].
  - intros Hwide Hmarkup. rewrite (onLoad_collapsed p Hsb). tauto.
  - intros Hnarrow. rewrite (onLoad_collapsed p Hsb). lia.
  - intros q [Hq _] Hwide Hmarkup. rewrite (onLoad_collapsed q Hq).
    unfold getItem in *. split; intros ->.
    + tauto.
    + rewrite Hes. intros (_ & [Habs | Habs]); [discriminate | contradiction].
Qed.

End SidebarJS.

Section SidebarExamples.
Import Dom Sidebar Examples.

Lemma sidebar_preference_witness :
  "collapsed" ∈ classes
    (onLoad layout0 (page0 ["sidebar"] {[ "sidebarCollapsed" := "true" ]} 1280))
    0%nat.
Proof.
  pose proof (sidebar_preference layout0
                (page0 ["sidebar"] {[ "sidebarCollapsed" := "true" ]} 1280)
                ltac:(split; eexists; reflexivity)) as (_ & _ & Hload & _).
  apply Hload.
  - simpl. lia.
  - compute_done.
  - reflexivity.
Defined.

(** Served with the class already on the sidebar, a wide page stays
    collapsed although "false" is stored. *)
Lemma onLoad_markup_collapsed :
  ¬ (∀ (d : Layout) (p : Page),
       present d p →
       992 < innerWidth p →
       ("collapsed" ∈ classes (onLoad d p) (sidebar d)
        ↔ getItem "sidebarCollapsed" p = Some "true")).
Proof.
  intros Hclaim.
  specialize (Hclaim layout0
                (page0 ["sidebar"; "collapsed"] {[ "sidebarCollapsed" := "false" ]} 1280)
                ltac:(split; eexists; reflexivity) ltac:(simpl; lia)).
  assert (Hin : "collapsed" ∈ classes
            (onLoad layout0
               (page0 ["sidebar"; "collapsed"] {[ "sidebarCollapsed" := "false" ]} 1280))
            0%nat).
  { compute_done. }
  apply Hclaim in Hin. discriminate Hin.
Qed.

End SidebarExamples.

(** * Properties of the incident core *)

Section IncidentCore.
Import Core.

(** ** The audit log *)

Lemma transition_accepted who now target i i' :
  transition who now target i = Accepted i' →
  edge (status i) target = true
  ∧ i' = append_audit (mkEntry who (Transition (status i) target) now)
           (set_status target (set_severity (severity_on target i) i)).
Proof.
  unfold transition. destruct (edge (status i) target); simpl; [| discriminate].
  destruct (guard i target); [discriminate |].
  intros [= <-]. split; reflexivity.
Qed.

(** What an accepted operation does to status and log: one entry at the
    end, a transition entry exactly for [Advance]. *)
Lemma perform_step who now c i i' :
  perform who now c i = Accepted i' →
  ∃ e, audit i' = audit i ++ [e]
       ∧ entry_actor e = who
       ∧ match c with
         | Advance target =>
             action e = Transition (status i) target
             ∧ status i' = target
             ∧ edge (status i) target = true
         | _ =>
             status i' = status i
             ∧ ∀ prior next, action e ≠ Transition prior next
         end.
Proof.
  destruct c; simpl.
  - intros H. apply transition_accepted in H as [Hedge ->].
    eexists. simpl. repeat split. exact Hedge.
  - intros [= <-]. eexists. simpl. repeat split. discriminate.
  - intros [= <-]. eexists. simpl. repeat split. discriminate.
  - destruct (_ && _); [| discriminate].
    intros [= <-]. eexists. simpl. repeat split. discriminate.
  - intros [= <-]. eexists. simpl. repeat split. discriminate.
  - intros [= <-]. eexists. simpl. repeat split. discriminate.
  - destruct (decide _); [| discriminate].
    intros [= <-]. eexists. simpl. repeat split. discriminate.
  - destruct (forallb _ _); [| discriminate].
    intros [= <-]. eexists. simpl. repeat split. discriminate.
Qed.

Lemma replay_app st log1 log2 :
  replay st (log1 ++ log2) = replay st log1 ≫= λ st', replay st' log2.
Proof.
  revert st. induction log1 as [| e log1 IH]; intros st; simpl; [reflexivity |].
  destruct (action e); try apply IH.
  destruct (_ && _); [apply IH | reflexivity].
Qed.

Lemma replay_reachable i :
  reachable i → replay submitted (audit i) = Some (status i).
Proof.
  induction 1 as [id r | i who now c i' Hreach IH Happly]; [reflexivity |].
  apply perform_step in Happly as (e & Hlog & _ & Hc).
  rewrite Hlog, replay_app, IH. simpl.
  destruct c; try (destruct Hc as [-> Hnot]; destruct (action e); try reflexivity;
                   exfalso; eapply Hnot; reflexivity).
  destruct Hc as (-> & -> & Hedge). rewrite Hedge.
  rewrite bool_decide_eq_true_2 by reflexivity. reflexivity.
Qed.

(** C1: for every incident the core can hold, replaying the audit log
    from [submitted] gives the current status; an accepted transition
    appends exactly its one entry (actor, prior state, new state,
    timestamp), and no accepted operation touches the entries already
    logged. *)
Theorem audit_replay_consistent i :
  reachable i →
  replay submitted (audit i) = Some (status i)
  ∧ (∀ who now target i',
       perform who now (Advance target) i = Accepted i' →
       status i' = target
       ∧ audit i' = audit i ++ [mkEntry who (Transition (status i) target) now])
  ∧ (∀ who now c i',
       perform who now c i = Accepted i' →
       ∃ e, audit i' = audit i ++ [e]
            ∧ replay submitted (audit i') = Some (status i')).
Proof.
  intros Hreach. split; [apply replay_reachable, Hreach |]. split.
  - intros who now target i' H. simpl in H.
    apply transition_accepted in H as [_ ->]. split; reflexivity.
  - intros who now c i' H.
    pose proof (replay_reachable i' (reach_perform i who now c i' Hreach H)) as Hr.
    apply perform_step in H as (e & Hlog & _). eauto.
Qed.

Lemma reachable_run script i : reachable i → reachable (run script i).
Proof.
  revert i. induction script as [| [[who now] c] rest IH]; intros i Hi; simpl;
    [exact Hi |].
  destruct (perform who now c i) as [i' | why] eqn:E; apply IH; [| exact Hi].
  exact (reach_perform i who now c i' Hi E).
Qed.

(** Of the seven operations of the sample script two are turned down (the
    onlooker's unlock, and taking up the case before an investigator is
    assigned); the other five are in the log. *)
Example script0_outcome :
  let i := run Examples.script0 (new_incident 0 (Examples.theft_report 30)) in
  status i = investigating
  ∧ severity i = 40
  ∧ map action (audit i)
    = [ AnalysisRecorded 1; RedactionRecorded 1; Transition submitted triaged;
        InvestigatorAssigned 9; Transition triaged investigating ]
  ∧ map redaction (evidence i) = [redaction_pending].
Proof. repeat split. Qed.

Lemma audit_replay_consistent_witness :
  replay submitted
    (audit (run Examples.script0 (new_incident 0 (Examples.theft_report 30))))
  = Some investigating.
Proof.
  exact (proj1 (audit_replay_consistent _
                  (reachable_run Examples.script0 _
                     (reach_new 0 (Examples.theft_report 30))))).
Defined.

(** ** Evidence behind a failed redaction *)

Lemma elem_of_on_item item f ev it' :
  it' ∈ on_item item f ev ↔
  ∃ it, it ∈ ev ∧ it' = if decide (item_id it = item) then f it else it.
Proof.
  unfold on_item. rewrite list_elem_of_fmap. split; intros (it & H1 & H2); eauto.
Qed.

Lemma override_logged_new id r : override_logged (new_incident id r).
Proof.
  intros it Hin Hov. simpl in Hin. apply list_elem_of_fmap in Hin as ([n loc] & -> & _).
  discriminate Hov.
Qed.

Lemma override_logged_step who now c i i' :
  perform who now c i = Accepted i' → override_logged i → override_logged i'.
Proof.
  intros Happly Hinv.
  assert (Hkeep : ∀ it, it ∈ evidence i → redaction it = redaction_overridden →
            ∃ e, e ∈ audit i' ∧ action e = RedactionOverridden (item_id it)
                 ∧ role (entry_actor e) = administrator).
  { intros it Hin Hov. destruct (Hinv it Hin Hov) as (e & He & Ha & Hr).
    destruct (perform_step _ _ _ _ _ Happly) as (e' & Hlog & _).
    exists e. rewrite Hlog, elem_of_app. auto. }
  destruct c; simpl in Happly.
  - apply transition_accepted in Happly as [_ ->]. exact Hkeep.
  - injection Happly as <-. exact Hkeep.
  - injection Happly as <-. exact Hkeep.
  - destruct (_ && _); [| discriminate]. injection Happly as <-. exact Hkeep.
  - intros it' Hin' Hov'. assert (Hi' := Happly). injection Hi' as <-.
    simpl in Hin'. apply elem_of_on_item in Hin' as (it & Hin & ->).
    destruct (decide (item_id it = item)); [| apply Hkeep; assumption].
    apply (Hkeep it Hin Hov').
  - intros it' Hin' Hov'. assert (Hi' := Happly). injection Hi' as <-.
    simpl in Hin'. apply elem_of_on_item in Hin' as (it & Hin & ->).
    destruct (decide (item_id it = item)); [| apply Hkeep; assumption].
    simpl in Hov'. destruct artifact; discriminate Hov'.
  - destruct (decide (role who = administrator)) as [Hadm |]; [| discriminate].
    intros it' Hin' Hov'. assert (Hi' := Happly). injection Hi' as <-.
    simpl in Hin'. apply elem_of_on_item in Hin' as (it & Hin & ->).
    destruct (decide (item_id it = item)) as [Hid |]; [| apply Hkeep; assumption].
    exists (mkEntry who (RedactionOverridden item) now). simpl.
    rewrite elem_of_app, list_elem_of_singleton, Hid. auto.
  - destruct (forallb _ _); [| discriminate]. injection Happly as <-. exact Hkeep.
Qed.

Lemma override_logged_reachable i : reachable i → override_logged i.
Proof.
  induction 1 as [id r | i who now c i' _ IH Happly].
  - apply override_logged_new.
  - eapply override_logged_step; eassumption.
Qed.

Lemma retrieve_below_manager a it :
  at_least_manager (role a) = false →
  retrieve a it ≠ Denied →
  (∃ artifact, redaction it = redacted artifact)
  ∨ redaction it = redaction_overridden.
Proof.
  unfold retrieve. intros ->. destruct (redaction it); eauto; congruence.
Qed.

(** C5: while redaction of an item has failed or has not run, retrieval by
    any role below manager is denied; a failed redaction marks the item
    [redaction_pending]; and on every incident the core can hold, an item
    such a role can retrieve either has a redacted copy or an
    administrator's override in the audit log. *)
Theorem redaction_fails_closed :
  (∀ a it,
     at_least_manager (role a) = false →
     redaction it = redaction_pending ∨ redaction it = redaction_not_run →
     retrieve a it = Denied)
  ∧ (∀ who now item i i' it',
       perform who now (RecordRedaction item None) i = Accepted i' →
       it' ∈ evidence i' → item_id it' = item →
       redaction it' = redaction_pending)
  ∧ (∀ who now item i it,
       at_least_manager (role who) = false →
       it ∈ evidence i → item_id it = item →
       redaction it = redaction_pending ∨ redaction it = redaction_not_run →
       perform who now (Unlock item) i = Rejected RedactionPending)
  ∧ (∀ i a it,
       reachable i → it ∈ evidence i →
       at_least_manager (role a) = false →
       retrieve a it ≠ Denied →
       (∃ artifact, redaction it = redacted artifact)
       ∨ (∃ e, e ∈ audit i
               ∧ action e = RedactionOverridden (item_id it)
               ∧ role (entry_actor e) = administrator)).
Proof.
  split; [| split; [| split]].
  - intros a it Hlow Hred. unfold retrieve. rewrite Hlow.
    destruct Hred as [-> | ->]; reflexivity.
  - intros who now item i i' it' Happly Hin Hid. simpl in Happly.
    injection Happly as <-. simpl in Hin.
    apply elem_of_on_item in Hin as (it & Hin & ->).
    destruct (decide (item_id it = item)) as [| Hne]; [reflexivity |].
    exfalso. exact (Hne Hid).
  - intros who now item i it Hlow Hin Hid Hred. simpl.
    destruct (forallb _ (evidence i)) eqn:Hall; [| reflexivity].
    rewrite forallb_forall in Hall. specialize (Hall it).
    rewrite <- list_elem_of_In in Hall. specialize (Hall Hin).
    rewrite bool_decide_eq_true_2 in Hall by exact Hid.
    unfold retrieve in Hall. rewrite Hlow in Hall.
    destruct Hred as [Hr | Hr]; rewrite Hr in Hall; discriminate Hall.
  - intros i a it Hreach Hin Hlow Hget.
    destruct (retrieve_below_manager a it Hlow Hget) as [Hcopy | Hov]; [left; exact Hcopy |].
    right. exact (override_logged_reachable i Hreach it Hin Hov).
Qed.

Lemma redaction_fails_closed_witness :
  retrieve Examples.onlooker Examples.photo_pending = Denied.
Proof.
  apply (proj1 redaction_fails_closed); [reflexivity | left; reflexivity].
Defined.

(** ** Alerts for uploaded evidence *)

Lemma managers_resolved staff loc m :
  m ∈ staff → role m = manager → scope m = Some loc →
  m ∈ resolve_recipients staff loc.
Proof.
  intros Hin Hrole Hscope. unfold resolve_recipients.
  assert (Hm : m ∈ filter (λ a, at_least_manager (role a) = true ∧ scope a = Some loc) staff).
  { apply list_elem_of_filter. rewrite Hrole. auto. }
  destruct (filter _ staff) as [| a rest] eqn:E; [| exact Hm].
  apply elem_of_nil in Hm. contradiction.
Qed.

(** C2: an incident from an evidence upload is always recorded and
    queryable; below the emergency threshold and outside the emergency
    categories it raises no alert, and at or above the threshold it raises
    exactly one, whose recipients include every manager scoped to the
    incident's location. *)
Theorem upload_alerting cfg staff now r s :
  report_source r = evidence_upload →
  incidents (submit cfg staff now r s) !! next_id s
    = Some (new_incident (next_id s) r)
  ∧ (report_severity r < emergency_threshold cfg →
     report_category r ∉ emergency_categories cfg →
     alerts (submit cfg staff now r s) = alerts s)
  ∧ (emergency_threshold cfg ≤ report_severity r →
     ∃ a, alerts (submit cfg staff now r s) = alerts s ++ [a]
          ∧ alert_incident a = next_id s
          ∧ ∀ m, m ∈ staff → role m = manager →
                 scope m = Some (report_location r) → m ∈ recipients a).
Proof.
  intros Hsrc. unfold submit. simpl. split; [apply lookup_insert_eq |].
  unfold route, should_alert, is_emergency. simpl. rewrite Hsrc. split.
  - intros Hlow Hcat.
    rewrite (proj2 (Z.leb_gt _ _) Hlow), (bool_decide_eq_false_2 _ Hcat).
    simpl. apply app_nil_r.
  - intros Hhigh. rewrite (proj2 (Z.leb_le _ _) Hhigh). simpl.
    eexists. split; [reflexivity |]. simpl. split; [reflexivity |].
    intros m Hin Hrole Hscope. apply managers_resolved; assumption.
Qed.

Lemma upload_alerting_witness :
  alerts (submit Examples.config0 Examples.staff0 100 (Examples.theft_report 30)
            Examples.empty_system) = []
  ∧ ∃ a, alerts (submit Examples.config0 Examples.staff0 100
                   (Examples.theft_report 70) Examples.empty_system) = [a]
         ∧ Examples.block_b_manager ∈ recipients a.
Proof.
  split.
  - apply (upload_alerting Examples.config0 Examples.staff0 100
             (Examples.theft_report 30) Examples.empty_system eq_refl).
    + simpl. lia.
    + compute_done.
  - destruct (upload_alerting Examples.config0 Examples.staff0 100
                (Examples.theft_report 70) Examples.empty_system eq_refl)
      as (_ & _ & Hhigh).
    destruct Hhigh as (a & Ha & _ & Hrec); [simpl; lia |].
    exists a. split; [exact Ha |].
    apply Hrec; [compute_done | reflexivity | reflexivity].
Defined.

End IncidentCore.

(** * Further properties of [main.js] *)

Section MainUtilities.
Import JS Dom Main.

(** ** [getIconForType] *)

Lemma assoc_in k ps v : assoc k ps = Some v → (k, v) ∈ ps.
Proof.
  induction ps as [| [k' v'] ps IH]; simpl; [discriminate |].
  destruct (String.eqb_spec k k') as [-> | _].
  - intros [= ->]. apply list_elem_of_here.
  - intros H. apply list_elem_of_further, IH, H.
Qed.

Lemma assoc_none k ps : assoc k ps = None ↔ k ∉ map fst ps.
Proof.
  induction ps as [| [k' v'] ps IH]; simpl.
  - split; [intros _; apply not_elem_of_nil | reflexivity].
  - rewrite not_elem_of_cons. destruct (String.eqb_spec k k') as [-> | Hne].
    + split; [discriminate | intros [H _]; contradiction].
    + rewrite IH. tauto.
Qed.

(** X1: [getIconForType] answers with the documented icon name exactly on
    the strings that are not names of members of [Object.prototype]; on
    each of those twelve names it hands out the inherited member. *)
Theorem getIconForType_documented_iff (type : string) :
  getIconForType type = VString (Claimed.icon_name type)
  ↔ type ∉ map fst (own_properties Object_prototype).
Proof.
  rewrite <- assoc_none. split.
  - intros Hdoc.
    destruct (assoc type (own_properties Object_prototype)) as [v |] eqn:E;
      [| reflexivity].
    exfalso. apply assoc_in in E. simpl in E.
    repeat (apply elem_of_cons in E as [[= -> ->] | E];
            [discriminate Hdoc |]).
    apply elem_of_nil in E. exact E.
  - apply getIconForType_own.
Qed.

(** ** [formatTimeAgo] *)

Lemma Number_toString_digit n rest :
  String.append (Number_toString (Num n)) rest ≠ "Just now".
Proof.
  unfold Number_toString. destruct (Z.to_int n) as [u | u]; simpl.
  - destruct u; simpl; discriminate.
  - discriminate.
Qed.

Lemma append_assoc (a b c : string) :
  String.append (String.append a b) c = String.append a (String.append b c).
Proof.
  induction a as [| x a IH]; [reflexivity |].
  change (String x (String.append (String.append a b) c)
          = String x (String.append a (String.append b c))).
  f_equal. exact IH.
Qed.

Lemma counted_not_just_now n unit : Claimed.counted n unit ≠ "Just now".
Proof.
  unfold Claimed.counted. rewrite !append_assoc.
  apply Number_toString_digit.
Qed.

(** X2: [formatTimeAgo] says "Just now" exactly when the string is no
    date, or less than a minute has elapsed since the date (a date in the
    future included). *)
Theorem formatTimeAgo_just_now_iff Date_parse now dateString :
  formatTimeAgo Date_parse now dateString = "Just now"
  ↔ match Date_parse dateString with
    | NaN => True
    | Num t => now - t < 60000
    end.
Proof.
  destruct (Date_parse dateString) as [| t] eqn:Hparse.
  - split; [trivial |]. intros _. apply formatTimeAgo_invalid, Hparse.
  - rewrite (formatTimeAgo_time_ago _ _ _ _ Hparse). unfold Claimed.time_ago.
    destruct (toDouble_le 60000 (now - t) ltac:(simpl; lia)) as [Hdown Hup].
    set (x := toDouble (now - t)) in *.
    destruct (Z.ltb_spec x 60000) as [Hlt | Hge];
      [split; [lia | reflexivity] |].
    split; [| lia]. intros H. exfalso.
    repeat match type of H with
           | (if ?b then _ else _) = _ => destruct b
           end; exact (counted_not_just_now _ _ H).
Qed.

(** X3: past the first minute the count is never zero and never reaches
    the next unit: 1 to 59 minutes, 1 to 23 hours, or at least 1 day. *)
Theorem formatTimeAgo_count_bounds Date_parse now dateString t :
  Date_parse dateString = Num t →
  60000 ≤ now - t →
  ∃ n unit,
    formatTimeAgo Date_parse now dateString = Claimed.counted n unit
    ∧ ((unit = "minute" ∧ 1 ≤ n ≤ 59)
       ∨ (unit = "hour" ∧ 1 ≤ n ≤ 23)
       ∨ (unit = "day" ∧ 1 ≤ n)).
Proof.
  intros Hparse Hge. rewrite (formatTimeAgo_time_ago _ _ _ _ Hparse).
  apply (toDouble_le 60000 (now - t) ltac:(simpl; lia)) in Hge.
  unfold Claimed.time_ago. set (x := toDouble (now - t)) in *.
  destruct (Z.ltb_spec x 60000) as [| _]; [lia |].
  destruct (Z.leb_spec 86400000 x) as [Hd | Hd].
  - exists (x / 86400000), "day". split; [reflexivity |].
    right; right. split; [reflexivity |]. Z.div_mod_to_equations; lia.
  - destruct (Z.leb_spec 3600000 x) as [Hh | Hh].
    + exists (x / 3600000), "hour". split; [reflexivity |].
      right; left. split; [reflexivity |]. Z.div_mod_to_equations; lia.
    + exists (x / 60000), "minute". split; [reflexivity |].
      left. split; [reflexivity |]. Z.div_mod_to_equations; lia.
Qed.

Lemma formatTimeAgo_count_bounds_witness :
  ∃ n unit,
    formatTimeAgo (λ _, Num 0) 86399999 "1970-01-01T00:00:00Z"
      = Claimed.counted n unit
    ∧ ((unit = "minute" ∧ 1 ≤ n ≤ 59)
       ∨ (unit = "hour" ∧ 1 ≤ n ≤ 23)
       ∨ (unit = "day" ∧ 1 ≤ n)).
Proof.
  apply (formatTimeAgo_count_bounds (λ _, Num 0) 86399999
           "1970-01-01T00:00:00Z" 0 eq_refl).
  lia.
Defined.

End MainUtilities.

Section FormListener.
Import Dom Main Samples.

Lemma controls_valueless (els : list Element) :
  controls els → Exists valueless els → False.
Proof.
  unfold controls. rewrite Forall_forall, Exists_exists.
  intros Hc (f & Hin & Hv). exact (Hc f Hin Hv).
Qed.

(** X4: the listener cancels a submission exactly when every required
    element has a string value and some required field holds nothing but
    white space (no code unit at all, or only spaces, tabs, line ends,
    no-break spaces and the like).  A required element without a string
    value makes the listener throw before it cancels anything, whatever
    the fields hold. *)
Theorem submit_cancelled_iff (els : list Element) (e : Event) :
  defaultPrevented e = false →
  defaultPrevented (event (onSubmit els e)) = true
  ↔ controls els
    ∧ ∃ f v, f ∈ els
             ∧ hasAttribute "required" f = true
             ∧ value f = Some v
             ∧ forallb isWhiteSpace v = true.
Proof.
  intros He.
  assert (Hblank : Exists blank els ↔
            ∃ f v, f ∈ els ∧ hasAttribute "required" f = true
                   ∧ value f = Some v ∧ forallb isWhiteSpace v = true).
  { rewrite Exists_exists. unfold blank. split.
    - intros (f & Hin & Hreq & Hws).
      destruct (value f) as [v |] eqn:Hv; [| discriminate Hws].
      injection Hws as Hws. exists f, v.
      repeat split; auto. apply trim_nil, Hws.
    - intros (f & v & Hin & Hreq & Hv & Hws). exists f.
      split; [exact Hin |]. split; [exact Hreq |].
      rewrite Hv. simpl. f_equal. apply trim_nil, Hws. }
  rewrite <- Hblank, <- forallb_filled.
  destruct (controls_dec els) as [Hc | Hv].
  - unfold onSubmit. rewrite (checkRequired_spec els true Hc), andb_true_l.
    destruct (forallb filled els); simpl.
    + rewrite He. split; [discriminate | intros [_ H]; discriminate H].
    + tauto.
  - destruct (onSubmit_throws els e Hv) as (_ & -> & _). rewrite He.
    split; [discriminate |]. intros [Hc _].
    destruct (controls_valueless els Hc Hv).
Qed.

Lemma submit_cancelled_iff_witness :
  defaultPrevented
    (event (onSubmit [Examples.spaces_only] (mkEvent false false))) = true.
Proof.
  apply (submit_cancelled_iff [Examples.spaces_only] (mkEvent false false) eq_refl).
  split.
  - repeat constructor. intros [_ H]. discriminate H.
  - exists Examples.spaces_only, (units "  ").
    split; [apply list_elem_of_here | repeat split].
Defined.

Lemma firstInvalid_spec (l : list Element) :
  match firstInvalid l with
  | Some i =>
      (∃ f, l !! i = Some f ∧ "is-invalid" ∈ classList f)
      ∧ ∀ j g, (j < i)%nat → l !! j = Some g → "is-invalid" ∉ classList g
  | None => ∀ g, g ∈ l → "is-invalid" ∉ classList g
  end.
Proof.
  induction l as [| f l IH]; simpl.
  - intros g Hg. apply elem_of_nil in Hg. contradiction.
  - unfold contains. case_bool_decide as Hf.
    + split; [exists f; auto |]. intros j g Hj. lia.
    + destruct (firstInvalid l) as [i |]; simpl.
      * destruct IH as [(g & Hg & Hcl) Hbefore]. split; [exists g; auto |].
        intros [| j] h Hj Hh; simpl in Hh.
        -- injection Hh as <-. exact Hf.
        -- apply (Hbefore j h); [lia | exact Hh].
      * intros g Hg. apply elem_of_cons in Hg as [-> | Hg]; [exact Hf | auto].
Qed.

Lemma mark_invalid_iff (f : Element) :
  ¬ valueless f →
  (hasAttribute "required" f = false → "is-invalid" ∉ classList f) →
  "is-invalid" ∈ classList (mark f) ↔ blank f.
Proof.
  intros Hv Hstale. unfold mark, blank.
  destruct (hasAttribute "required" f) eqn:Hreq.
  - destruct (value f) as [x |] eqn:Hx;
      [| exfalso; apply Hv; split; assumption].
    change (trim <$> Some x) with (Some (trim x)).
    destruct (truthy (trim x)) eqn:Ht; simpl.
    + rewrite elem_of_remove. split; [tauto |].
      intros [_ Hnil]. injection Hnil as Hnil. rewrite Hnil in Ht. discriminate.
    + rewrite elem_of_add. apply truthy_false in Ht. rewrite Ht. tauto.
  - specialize (Hstale eq_refl). split; [contradiction | intros [H _]; discriminate].
Qed.

(** X5: on a form whose required elements all have a string value (so
    that the listener does not throw), a submission with an empty
    required field moves the focus to the first such field, provided no
    element without the [required] attribute already carried the class
    [is-invalid] (the listener looks for the class, not for the fields it
    has just checked). *)
Theorem focus_first_blank (els : list Element) (e : Event) :
  controls els →
  Exists blank els →
  (∀ f, f ∈ els → hasAttribute "required" f = false →
        "is-invalid" ∉ classList f) →
  ∃ i f,
    focused (onSubmit els e) = Some (S i)
    ∧ els !! i = Some f
    ∧ blank f
    ∧ ∀ j g, (j < i)%nat → els !! j = Some g → ¬ blank g.
Proof.
  intros Hc Hex Hstale. unfold onSubmit.
  rewrite (checkRequired_spec els true Hc), andb_true_l.
  apply forallb_filled in Hex as Hf. rewrite Hf. cbn [negb focused].
  change (firstInvalid (errorDiv :: map mark els))
    with (S <$> firstInvalid (map mark els)).
  pose proof (firstInvalid_spec (map mark els)) as Hspec.
  assert (Hiff : ∀ k g, els !! k = Some g →
            ("is-invalid" ∈ classList (mark g) ↔ blank g)).
  { intros k g Hk.
    assert (Hin : g ∈ els) by (eapply list_elem_of_lookup_2, Hk).
    unfold controls in Hc. rewrite Forall_forall in Hc.
    apply mark_invalid_iff; [apply Hc, Hin | apply Hstale, Hin]. }
  destruct (firstInvalid (map mark els)) as [i |].
  - destruct Hspec as [(f' & Hf' & Hcl) Hbefore].
    rewrite list_lookup_fmap in Hf'.
    destruct (els !! i) as [f |] eqn:Hi; [| discriminate].
    injection Hf' as <-. exists i, f.
    split; [reflexivity |]. split; [exact Hi |].
    split; [apply (Hiff i f Hi), Hcl |].
    + intros j g Hj Hg Hb. apply (Hbefore j (mark g) Hj).
      * rewrite list_lookup_fmap, Hg. reflexivity.
      * apply (Hiff j g Hg), Hb.
  - exfalso. apply Exists_exists in Hex as (f & Hin & Hb).
    apply (Hspec (mark f)).
    + apply list_elem_of_fmap. eauto.
    + apply list_elem_of_lookup in Hin as [k Hk]. apply (Hiff k f Hk), Hb.
Qed.

Lemma focus_first_blank_witness :
  ∃ i f,
    focused (onSubmit [createElement; Examples.spaces_only] (mkEvent false false))
      = Some (S i)
    ∧ [createElement; Examples.spaces_only] !! i = Some f
    ∧ blank f
    ∧ ∀ j g, (j < i)%nat →
             [createElement; Examples.spaces_only] !! j = Some g → ¬ blank g.
Proof.
  apply (focus_first_blank [createElement; Examples.spaces_only]
           (mkEvent false false)).
  - repeat constructor; intros [H1 H2]; discriminate.
  - apply Exists_cons_tl, Exists_cons_hd. split; reflexivity.
  - intros f Hin Hreq.
    apply elem_of_cons in Hin as [-> | Hin];
      [apply not_elem_of_nil |].
    apply list_elem_of_singleton in Hin as ->. discriminate Hreq.
Defined.

Lemma mark_attributes (f : Element) k : hasAttribute k (mark f) = hasAttribute k f.
Proof.
  unfold mark. destruct (hasAttribute "required" f); [| reflexivity].
  destruct (value f) as [x |]; [| reflexivity].
  destruct (truthy (trim x)); reflexivity.
Qed.

Lemma mark_value (f : Element) : value (mark f) = value f.
Proof.
  unfold mark. destruct (hasAttribute "required" f); [| reflexivity].
  destruct (value f) as [x |] eqn:Hx; [| exact Hx].
  destruct (truthy (trim x)); exact Hx.
Qed.

Lemma mark_keeps_blank (f : Element) : blank (mark f) ↔ blank f.
Proof. unfold blank. rewrite mark_attributes, mark_value. reflexivity. Qed.

Lemma mark_idempotent (f : Element) : mark (mark f) = mark f.
Proof.
  unfold mark at 1. rewrite mark_attributes, mark_value. unfold mark.
  destruct (hasAttribute "required" f); [| reflexivity].
  destruct (value f) as [x |]; [| reflexivity].
  destruct (truthy (trim x)); unfold with_classList; simpl; f_equal.
  - unfold remove. apply list_filter_filter_l. auto.
  - unfold add. destruct (decide ("is-invalid" ∈ classList f)) as [Hin | Hout].
    + rewrite decide_True by exact Hin. reflexivity.
    + rewrite decide_True by set_solver. reflexivity.
Qed.

Lemma mark_errorDiv : mark errorDiv = errorDiv.
Proof. reflexivity. Qed.

Lemma mark_keeps_valueless (f : Element) : valueless (mark f) ↔ valueless f.
Proof. unfold valueless. rewrite mark_attributes, mark_value. reflexivity. Qed.

(** A form stays a form of controls when the listener has run. *)
Lemma controls_stack (els : list Element) (k : nat) :
  controls els → controls (replicate k errorDiv ++ map mark els).
Proof.
  intros Hc. apply Forall_app. split.
  - apply Forall_forall. intros f Hf.
    apply elem_of_replicate in Hf as [-> _]. intros [H _]. discriminate H.
  - apply Forall_forall. intros g Hg.
    apply list_elem_of_fmap in Hg as (f & -> & Hin).
    rewrite mark_keeps_valueless. unfold controls in Hc.
    rewrite Forall_forall in Hc. apply Hc, Hin.
Qed.

(** X6: the listener never takes an earlier message away: on a form
    whose required elements all have a string value, while a required
    field stays empty, every further submission puts one more message in
    front, so after [n + 1] attempts the form starts with [n + 1] copies
    of it, followed by the fields as the first attempt marked them. *)
Theorem messages_stack (els : list Element) (e : Event) (n : nat) :
  controls els →
  Exists blank els →
  resubmitted e (S n) els = replicate (S n) errorDiv ++ map mark els.
Proof.
  intros Hc Hex. induction n as [| n IH].
  - simpl. unfold onSubmit. rewrite (checkRequired_spec els true Hc), andb_true_l.
    apply forallb_filled in Hex. rewrite Hex. reflexivity.
  - unfold resubmitted in *. rewrite Nat.iter_succ, IH.
    unfold onSubmit.
    rewrite (checkRequired_spec _ true (controls_stack els (S n) Hc)), andb_true_l.
    assert (Hstill : forallb filled (replicate (S n) errorDiv ++ map mark els) = false).
    { apply forallb_filled. apply Exists_app. right.
      apply Exists_exists in Hex as (f & Hin & Hb). apply Exists_exists.
      exists (mark f). split; [apply list_elem_of_fmap; eauto |].
      apply mark_keeps_blank, Hb. }
    rewrite Hstill. simpl negb. cbv iota. simpl form.
    rewrite map_app, map_map.
    rewrite (map_ext _ _ mark_idempotent).
    assert (Hrep : ∀ k, map mark (replicate k errorDiv) = replicate k errorDiv).
    { induction k as [| k IHk]; simpl; [reflexivity |].
      rewrite IHk, mark_errorDiv. reflexivity. }
    rewrite Hrep. reflexivity.
Qed.

Lemma messages_stack_witness :
  resubmitted (mkEvent false false) 3 [Examples.spaces_only]
  = [errorDiv; errorDiv; errorDiv; mark Examples.spaces_only].
Proof.
  apply (messages_stack [Examples.spaces_only] (mkEvent false false) 2).
  - repeat constructor. intros [_ H]. discriminate H.
  - apply Exists_cons_hd. split; reflexivity.
Defined.

End FormListener.

Section RequestIndicator.
Import Dom Sidebar Indicator.

Lemma remove_absent (c : string) (l : list string) : c ∉ l → remove c l = l.
Proof.
  unfold remove. induction l as [| x l IH]; intros Hc; [reflexivity |].
  apply not_elem_of_cons in Hc as [Hx Hl].
  rewrite filter_cons_True by congruence. rewrite IH by exact Hl. reflexivity.
Qed.

Lemma remove_add (c : string) (l : list string) :
  c ∉ l → remove c (add c l) = l.
Proof.
  intros Hc. unfold add. rewrite decide_False by exact Hc.
  unfold remove. rewrite filter_app.
  fold (remove c l). rewrite (remove_absent c l Hc).
  rewrite filter_cons_False by auto. apply app_nil_r.
Qed.

Lemma update_update id (f g : Element → Element) p :
  update id f (update id g p) = update id (f ∘ g) p.
Proof.
  unfold update. simpl. f_equal. apply map_eq. intros k.
  destruct (decide (id = k)) as [-> | Hne].
  - rewrite !lookup_alter_eq. destruct (elements p !! k); reflexivity.
  - rewrite !lookup_alter_ne by exact Hne. reflexivity.
Qed.

Lemma update_id id (f : Element → Element) p :
  (∀ el, elements p !! id = Some el → f el = el) → update id f p = p.
Proof.
  intros Hf. unfold update. rewrite (alter_id f (elements p) id Hf).
  destruct p; reflexivity.
Qed.

Variable querySelector : Page → string → option nat.

(** X8: a request that starts and ends puts the page back as it was: if
    the indicator did not spin before and the selector finds the same
    element at the end as at the start, the [fa-spin] class is on the
    indicator while the request runs and the page after it is the page
    before it. *)
Theorem indicator_round_trip target p i :
  indicator querySelector target p = Some i →
  indicator querySelector target (onBeforeRequest querySelector target p)
    = Some i →
  is_Some (elements p !! i) →
  "fa-spin" ∉ classes p i →
  "fa-spin" ∈ classes (onBeforeRequest querySelector target p) i
  ∧ onAfterRequest querySelector target (onBeforeRequest querySelector target p)
    = p.
Proof.
  intros Hstart Hend [el Hel] Hidle. unfold onAfterRequest. rewrite Hend.
  unfold onBeforeRequest. rewrite Hstart. split.
  - unfold classList_add. rewrite classes_update.
    rewrite decide_True by reflexivity. rewrite Hel. simpl.
    apply elem_of_add. auto.
  - unfold classList_remove, classList_add. rewrite update_update.
    apply update_id. intros el' Hel'. rewrite Hel in Hel'. injection Hel' as <-.
    unfold classes in Hidle. rewrite Hel in Hidle.
    unfold compose, with_classList. simpl. rewrite (remove_add _ _ Hidle).
    destruct el; reflexivity.
Qed.

Lemma is_Some_update id f p k :
  is_Some (elements (update id f p) !! k) ↔ is_Some (elements p !! k).
Proof.
  unfold update. simpl. rewrite lookup_alter.
  destruct (decide (id = k)) as [-> | _]; [| reflexivity].
  apply fmap_is_Some.
Qed.

Lemma class_after_add id c p :
  is_Some (elements p !! id) → c ∈ classes (classList_add id c p) id.
Proof.
  intros [el Hel]. unfold classList_add. rewrite classes_update.
  rewrite decide_True by reflexivity. rewrite Hel. simpl.
  apply elem_of_add. auto.
Qed.

Lemma class_after_remove id c p : c ∉ classes (classList_remove id c p) id.
Proof.
  unfold classList_remove. rewrite classes_update.
  rewrite decide_True by reflexivity.
  destruct (elements p !! id); simpl.
  - rewrite elem_of_remove. tauto.
  - apply not_elem_of_nil.
Qed.

(** X9: the spinner is not counted: of two requests that share an
    indicator, the first to end stops it, although the second is still
    under way. *)
Theorem indicator_not_counted first second p i :
  is_Some (elements p !! i) →
  indicator querySelector first p = Some i →
  indicator querySelector second (onBeforeRequest querySelector first p)
    = Some i →
  indicator querySelector first
    (onBeforeRequest querySelector second
       (onBeforeRequest querySelector first p)) = Some i →
  "fa-spin" ∈ classes
    (onBeforeRequest querySelector second
       (onBeforeRequest querySelector first p)) i
  ∧ "fa-spin" ∉ classes
      (onAfterRequest querySelector first
         (onBeforeRequest querySelector second
            (onBeforeRequest querySelector first p))) i.
Proof.
  intros Hel H1 H2 H3. split.
  - unfold onBeforeRequest at 1. rewrite H2. apply class_after_add.
    unfold onBeforeRequest. rewrite H1. unfold classList_add.
    apply is_Some_update, Hel.
  - unfold onAfterRequest. rewrite H3. apply class_after_remove.
Qed.

End RequestIndicator.

Section RequestIndicatorSamples.
Import Dom Sidebar Indicator Samples.

Lemma indicator_round_trip_witness :
  onAfterRequest by_id 0 (onBeforeRequest by_id 0 spinner_page) = spinner_page.
Proof.
  apply (indicator_round_trip by_id 0%nat spinner_page 1%nat).
  - reflexivity.
  - reflexivity.
  - eexists. reflexivity.
  - compute_done.
Defined.

Lemma indicator_not_counted_witness :
  "fa-spin" ∉ classes
    (onAfterRequest by_id 0
       (onBeforeRequest by_id 0 (onBeforeRequest by_id 0 spinner_page))) 1%nat.
Proof.
  apply (indicator_not_counted by_id 0%nat 0%nat spinner_page 1%nat).
  - eexists. reflexivity.
  - reflexivity.
  - reflexivity.
  - reflexivity.
Defined.

End RequestIndicatorSamples.

Section Toasts.
Import JS Dom Toast.

Lemma append_inj_l (prefix a b : string) :
  String.append prefix a = String.append prefix b → a = b.
Proof.
  induction prefix as [| x prefix IH]; [trivial |].
  change (String x (String.append prefix a) = String x (String.append prefix b)
          → a = b).
  intros [= H]. apply IH, H.
Qed.

Lemma Number_toString_inj (a b : Z) :
  Number_toString (Num a) = Number_toString (Num b) → a = b.
Proof.
  unfold Number_toString. intros H.
  assert (Hnn : ∀ z, Z.to_int z ≠ Decimal.Pos Decimal.Nil
                     ∧ Z.to_int z ≠ Decimal.Neg Decimal.Nil).
  { intros [| q | q]; simpl; split; try discriminate;
      intros [= Hq]; exact (DecimalPos.Unsigned.to_uint_nonnil q Hq). }
  apply DecimalZ.to_int_inj.
  assert (Some (Z.to_int a) = Some (Z.to_int b)) as [= ->]; [| reflexivity].
  rewrite <- (NilZero.isi (Z.to_int a)), <- (NilZero.isi (Z.to_int b));
    try apply Hnn.
  rewrite H. reflexivity.
Qed.

(** X11: the [id] of a toast is the clock reading in milliseconds and
    nothing else: two toasts get the same [id] exactly when they are made
    in the same millisecond, whatever their message and type. *)
Theorem toast_id_collision now1 now2 message1 message2 type1 type2 :
  toast_id (toast now1 message1 type1) = toast_id (toast now2 message2 type2)
  ↔ now1 = now2.
Proof.
  simpl. split; [| intros ->; reflexivity].
  intros H. apply append_inj_l in H. apply Number_toString_inj, H.
Qed.

Lemma showToast_container now message type d :
  container (showToast now message type d)
    = Some (default [] (container d) ++ [toast now message (default "info" type)])
  ∧ created (showToast now message type d)
    = (created d + match container d with Some _ => 0 | None => 1 end)%nat.
Proof.
  unfold showToast, createToastContainer.
  destruct (container d) as [kids |] eqn:E; simpl; rewrite ?E; simpl;
    (split; [reflexivity | lia]).
Qed.

(** X10: however many toasts are shown, at most one container is ever
    made: the first call makes it when the page has none, every later
    call finds it, and the toasts sit in it in the order of the calls,
    after what it held before. *)
Theorem showAll_one_container calls d :
  calls ≠ [] →
  container (showAll calls d)
    = Some (default [] (container d)
            ++ map (λ '(now, message, type),
                      toast now message (default "info" type)) calls)
  ∧ created (showAll calls d)
    = (created d + match container d with Some _ => 0 | None => 1 end)%nat.
Proof.
  revert d. induction calls as [| [[now message] type] calls IH]; intros d Hne;
    [congruence |].
  unfold showAll in *. simpl foldl.
  destruct (showToast_container now message type d) as [Hc Hn].
  destruct calls as [| call calls].
  - simpl. split; [exact Hc | exact Hn].
  - destruct (IH (showToast now message type d) ltac:(discriminate)) as [Hc' Hn'].
    rewrite Hc', Hn', Hc, Hn. simpl default. split.
    + rewrite <- app_assoc. reflexivity.
    + lia.
Qed.

Lemma showAll_one_container_witness :
  created
    (showAll [(1000, "Saved", Some "success"); (1000, "Camera offline", None)]
       (mkDoc None 0)) = 1%nat.
Proof.
  apply (showAll_one_container
           [(1000, "Saved", Some "success"); (1000, "Camera offline", None)]
           (mkDoc None 0)).
  discriminate.
Defined.

End Toasts.

Section FlashMessages.
Import Dom Flash.

Lemma same_container_told s s' : same_container s s' → told s → told s'.
Proof. intros [Hk Hc]. unfold told. rewrite Hk, Hc. trivial. Qed.

Lemma same_container_foldl {A} (f : State → A → State) (l : list A) :
  (∀ s x, same_container s (f s x)) → ∀ s, same_container s (foldl f s l).
Proof.
  intros Hf. induction l as [| x l IH]; intros s; simpl; [split; reflexivity |].
  destruct (Hf s x) as [Hk Hc]. destruct (IH (f s x)) as [Hk' Hc'].
  split; congruence.
Qed.

Lemma same_container_remove m s : same_container s (Flash.remove m s).
Proof. unfold Flash.remove. destruct (negb _); split; reflexivity. Qed.

Lemma told_detach m s : told s → told (detach m s).
Proof.
  unfold told, detach. simpl. intros Hs.
  destruct (filter (λ k, k ≠ m) (children s)) as [| k kids] eqn:E.
  - rewrite elem_of_remove. split; [tauto | congruence].
  - split; [discriminate |]. intros _. apply Hs. intros Hnil.
    rewrite Hnil in E. discriminate E.
Qed.

Lemma told_show message type options s : told (show message type options s).
Proof.
  unfold told, show. simpl. rewrite elem_of_add. split.
  - intros _ H. apply app_eq_nil in H as [_ H]. discriminate H.
  - auto.
Qed.

Lemma told_setup s : served s → told (setupExistingMessages s).
Proof.
  intros (Hin & Hout & Hclass). unfold setupExistingMessages.
  set (step := λ (s : State) (m : nat), match nodes s !! m with
                                        | Some n => _
                                        | None => s
                                        end).
  assert (Hsame : same_container s (foldl step s (flashMessages s))).
  { apply same_container_foldl. intros s' m. unfold step.
    destruct (nodes s' !! m); split; reflexivity. }
  destruct Hsame as [Hk Hc].
  destruct (flashMessages s) as [| m ms] eqn:E; unfold told; simpl in *.
  - split; [exact Hclass |].
    intros Hne. exfalso. destruct (children s) as [| k kids]; [congruence |].
    specialize (Hin k ltac:(apply list_elem_of_here)).
    apply elem_of_nil in Hin. exact Hin.
  - rewrite Hk, elem_of_add. split; [| auto]. intros _ Hnil.
    specialize (Hout m ltac:(apply list_elem_of_here)).
    rewrite Hnil in Hout. apply elem_of_nil in Hout. exact Hout.
Qed.

Lemma told_handle s e : told s → told (handle s e).
Proof.
  intros Hs. destruct e as [message type options | m | k | k |]; simpl.
  - apply told_show.
  - destruct (nodes s !! m) as [n |]; [| exact Hs].
    destruct (closeListener n); [| exact Hs].
    eapply same_container_told; [apply same_container_remove | exact Hs].
  - destruct (timers s !! k) as [[m delay | m] |]; [| | exact Hs]; simpl.
    + eapply same_container_told; [apply same_container_remove | exact Hs].
    + apply told_detach. exact Hs.
  - destruct (frames s !! k); exact Hs.
  - unfold clearAll. eapply same_container_told; [| exact Hs].
    apply same_container_foldl. intros s' m. apply same_container_remove.
Qed.

(** X12: on a page served with the flash messages in their container,
    whatever is shown, closed, cleared or timed out, and in whatever
    order the timers fire, the container carries the class
    [has-messages] exactly while it has a child. *)
Theorem has_messages_told s : reachable s → told s.
Proof.
  induction 1 as [s Hserved | s e _ IH].
  - apply told_setup, Hserved.
  - apply told_handle, IH.
Qed.

Lemma gone_remove m m' s : gone m s → gone m (Flash.remove m' s).
Proof.
  intros (Hn & Hk & He). unfold Flash.remove.
  destruct (negb _); [repeat split; assumption |].
  repeat split; simpl; [| assumption | assumption].
  rewrite lookup_alter. destruct (decide (m' = m)); [| exact Hn].
  apply fmap_is_Some. subst m'. exact Hn.
Qed.

Lemma gone_detach m m' s : gone m s → gone m (detach m' s).
Proof.
  intros (Hn & Hk & He). unfold detach. repeat split; simpl.
  - exact Hn.
  - rewrite list_elem_of_filter. tauto.
  - rewrite elem_of_difference. tauto.
Qed.

Lemma gone_after_detach m s : is_Some (nodes s !! m) → gone m (detach m s).
Proof.
  intros Hn. unfold detach. repeat split; simpl.
  - exact Hn.
  - rewrite list_elem_of_filter. tauto.
  - rewrite elem_of_difference, elem_of_singleton. tauto.
Qed.

Lemma gone_foldl_remove m (l : list nat) s :
  gone m s → gone m (foldl (λ s m', Flash.remove m' s) s l).
Proof.
  revert s. induction l as [| x l IH]; intros s Hs; simpl; [exact Hs |].
  apply IH, gone_remove, Hs.
Qed.

(** A new element is another element: nothing brings [m] back. *)
Lemma gone_handle m s e : gone m s → gone m (handle s e).
Proof.
  intros Hs. pose proof Hs as (Hn & Hk & He).
  destruct e as [message type options | m' | k | k |]; simpl.
  - unfold show.
    set (X := dom (nodes s) ∪ list_to_set (children s) ∪ elsewhere s).
    assert (Hne : fresh X ≠ m).
    { intros Heq. apply (is_fresh X). rewrite Heq. unfold X.
      apply elem_of_union_l, elem_of_union_l, elem_of_dom, Hn. }
    repeat split; simpl.
    + rewrite lookup_insert_ne by exact Hne. exact Hn.
    + rewrite elem_of_app, list_elem_of_singleton. intros [H | H]; auto.
    + exact He.
  - destruct (nodes s !! m') as [n |]; [| exact Hs].
    destruct (closeListener n); [apply gone_remove, Hs | exact Hs].
  - destruct (timers s !! k) as [[m' delay | m'] |]; [| | exact Hs]; simpl.
    + apply gone_remove. exact Hs.
    + apply gone_detach. exact Hs.
  - destruct (frames s !! k) as [m' |]; [| exact Hs].
    repeat split; simpl; [| assumption | assumption].
    rewrite lookup_alter. destruct (decide (m' = m)); [| exact Hn].
    apply fmap_is_Some. subst m'. exact Hn.
  - apply gone_foldl_remove, Hs.
Qed.

Lemma filter_absent (m : nat) (l : list nat) :
  m ∉ l → filter (λ k, k ≠ m) l = l.
Proof.
  induction l as [| x l IH]; intros Hm; [reflexivity |].
  apply not_elem_of_cons in Hm as [Hx Hl].
  rewrite filter_cons_True by congruence. rewrite IH by exact Hl. reflexivity.
Qed.

(** X13: once the removal timer of a message has fired the message is
    gone for good: whatever is shown, clicked, cleared or timed out
    afterwards, the message stays out of the document, and a second
    timer for it (a click on the close button and the auto-dismiss timer
    each set one) and a late call of [remove] leave the page as it
    is. *)
Theorem detach_once m k s events :
  reachable s →
  is_Some (nodes s !! m) →
  timers s !! k = Some (Detach m) →
  let s' := foldl handle (handle s (Fire k)) events in
  hasParent m s' = false
  ∧ detach m s' = s'
  ∧ Flash.remove m s' = s'.
Proof.
  intros Hreach Hm Hfire s'.
  assert (Htold : told s).
  { clear Hm Hfire s'. induction Hreach as [s Hserved | s e _ IH];
      [apply told_setup, Hserved | apply told_handle, IH]. }
  assert (Hinv : ∀ events s0, told s0 → gone m s0 →
            told (foldl handle s0 events) ∧ gone m (foldl handle s0 events)).
  { clear. induction events as [| e events IH]; intros s0 Ht Hg; simpl;
      [split; assumption |].
    apply IH; [apply told_handle, Ht | apply gone_handle, Hg]. }
  assert (Hgone : gone m (handle s (Fire k))).
  { cbn [handle]. rewrite Hfire. cbn [run_task].
    apply gone_after_detach. exact Hm. }
  destruct (Hinv events (handle s (Fire k)) (told_handle s (Fire k) Htold)
              Hgone) as [Ht (Hn & Hk & He)].
  fold s' in Ht, Hn, Hk, He. clearbody s'.
  assert (Hout : hasParent m s' = false).
  { unfold hasParent. rewrite !bool_decide_eq_false_2 by assumption.
    reflexivity. }
  split; [exact Hout |]. split.
  - unfold detach. rewrite (filter_absent m (children s') Hk).
    rewrite (difference_disjoint_L (elsewhere s') {[ m ]})
      by (apply disjoint_singleton_r, He).
    assert (Hclass : match children s' with
                     | [] => Dom.remove "has-messages" (containerClasses s')
                     | _ :: _ => containerClasses s'
                     end = containerClasses s').
    { destruct (children s') as [| kid kids] eqn:Hkids; [| reflexivity].
      apply remove_absent. intros Hin. apply Ht in Hin. congruence. }
    rewrite Hclass. destruct s'; reflexivity.
  - unfold Flash.remove. rewrite Hout. reflexivity.
Qed.

Lemma reachable_events events s :
  reachable s → reachable (foldl handle s events).
Proof.
  revert s. induction events as [| e events IH]; intros s Hs; simpl;
    [exact Hs |].
  apply IH, reach_event, Hs.
Qed.

Lemma served_empty : served Samples.flash_empty.
Proof.
  split; [| split].
  - intros m H. apply elem_of_nil in H. contradiction.
  - intros m H. apply elem_of_nil in H. contradiction.
  - intros H. apply elem_of_nil in H. contradiction.
Qed.

Example flash_events_outcome :
  let s := foldl handle (setupExistingMessages Samples.flash_empty)
             Samples.flash_events in
  children s = [1%nat] ∧ containerClasses s = ["has-messages"] ∧ timers s = [].
Proof. vm_compute. repeat split. Qed.

Lemma detach_once_witness :
  let s' := foldl handle (handle Samples.flash_shown (Fire 1))
              Samples.flash_later in
  hasParent 0 s' = false ∧ detach 0 s' = s' ∧ Flash.remove 0 s' = s'.
Proof.
  apply (detach_once 0%nat 1%nat Samples.flash_shown Samples.flash_later).
  - apply reachable_events, reach_setup, served_empty.
  - eexists. vm_compute. reflexivity.
  - vm_compute. reflexivity.
Defined.

Lemma has_messages_told_witness :
  told (foldl handle (setupExistingMessages Samples.flash_empty)
          Samples.flash_events).
Proof.
  apply has_messages_told, reachable_events, reach_setup, served_empty.
Defined.

End FlashMessages.

(** * Further properties of [sidebar.js] *)

Section ClassLists.
Import Dom Sidebar SidebarEvents.

Lemma elem_classes_add (c c' : string) (id k : nat) (p : Page) :
  c' ∈ classes (classList_add id c p) k
  ↔ c' ∈ classes p k ∨ (c' = c ∧ k = id ∧ is_Some (elements p !! k)).
Proof.
  unfold classList_add. rewrite classes_update.
  destruct (decide (id = k)) as [-> | Hne].
  - unfold classes. destruct (elements p !! k) as [el |]; simpl.
    + rewrite elem_of_add. split; [intros [-> | H]; eauto | intros [H | (H & _)]; auto].
    + split; [intros H; apply elem_of_nil in H; contradiction |].
      intros [H | (_ & _ & [x Hx])]; [exact H | discriminate Hx].
  - split; [auto |]. intros [H | (_ & Hk & _)]; [exact H | congruence].
Qed.

Lemma elem_classes_remove (c c' : string) (id k : nat) (p : Page) :
  c' ∈ classes (classList_remove id c p) k
  ↔ c' ∈ classes p k ∧ ¬ (c' = c ∧ k = id).
Proof.
  unfold classList_remove. rewrite classes_update.
  destruct (decide (id = k)) as [-> | Hne].
  - unfold classes. destruct (elements p !! k) as [el |]; simpl.
    + rewrite elem_of_remove. tauto.
    + split; [intros H; apply elem_of_nil in H; contradiction | tauto].
  - split; [intros H; split; [exact H | intros [_ Hk]; congruence] | tauto].
Qed.

Lemma same_elements_refl p : same_elements p p.
Proof. intros k. reflexivity. Qed.

Lemma same_elements_trans p q r :
  same_elements p q → same_elements q r → same_elements p r.
Proof. intros H1 H2 k. etransitivity; [apply H2 | apply H1]. Qed.

Lemma same_elements_update id f p : same_elements p (update id f p).
Proof. intros k. apply is_Some_update. Qed.

Lemma same_elements_foldl {A} (f : Page → A → Page) (l : list A) :
  (∀ p x, same_elements p (f p x)) → ∀ p, same_elements p (foldl f p l).
Proof.
  intros Hf. induction l as [| x l IH]; intros p; simpl.
  - apply same_elements_refl.
  - eapply same_elements_trans; [apply Hf | apply IH].
Qed.

Variable d : Layout.

Lemma same_elements_setActive p : same_elements p (setActiveSidebarItem d p).
Proof.
  unfold setActiveSidebarItem. apply same_elements_foldl. clear p.
  intros p link.
  eapply same_elements_trans; [apply same_elements_update |].
  destruct (href d link); [| apply same_elements_refl].
  destruct (_ && _); [| apply same_elements_refl].
  eapply same_elements_trans; [apply same_elements_update |].
  destruct (dropdownToggle d link);
    [apply same_elements_update | apply same_elements_refl].
Qed.

Lemma same_elements_updateTooltips p :
  same_elements p (updateSidebarTooltips d p).
Proof.
  unfold updateSidebarTooltips. apply same_elements_foldl. clear p.
  intros p link.
  destruct (_ && _); [apply same_elements_update | apply same_elements_refl].
Qed.

Lemma same_elements_removeTooltips p :
  same_elements p (removeSidebarTooltips d p).
Proof.
  unfold removeSidebarTooltips. apply same_elements_foldl. clear p.
  intros p link.
  destruct (elements p !! link) as [el |]; [| apply same_elements_refl].
  destruct (hasAttribute _ el);
    [apply same_elements_update | apply same_elements_refl].
Qed.

Lemma same_elements_collapse p : same_elements p (collapseSidebar d p).
Proof.
  unfold collapseSidebar.
  eapply same_elements_trans; [| apply same_elements_updateTooltips].
  intros k.
  change (is_Some (elements (classList_add (mainContent d) "expanded"
                               (classList_add (sidebar d) "collapsed" p)) !! k)
          ↔ is_Some (elements p !! k)).
  unfold classList_add. rewrite !is_Some_update. reflexivity.
Qed.

Lemma same_elements_expand p : same_elements p (expandSidebar d p).
Proof.
  unfold expandSidebar.
  eapply same_elements_trans; [| apply same_elements_removeTooltips].
  intros k.
  change (is_Some (elements (classList_remove (mainContent d) "expanded"
                               (classList_remove (sidebar d) "collapsed" p)) !! k)
          ↔ is_Some (elements p !! k)).
  unfold classList_remove. rewrite !is_Some_update. reflexivity.
Qed.

Lemma same_elements_toggleClick p : same_elements p (onToggleClick d p).
Proof.
  unfold onToggleClick.
  destruct (contains _ _);
    [apply same_elements_expand | apply same_elements_collapse].
Qed.

Lemma same_elements_handleResize p : same_elements p (handleResize d p).
Proof.
  unfold handleResize. destruct (_ <=? _); [| apply same_elements_refl].
  eapply same_elements_trans; apply same_elements_update.
Qed.

Lemma same_class_trans c p q r :
  same_class c p q → same_class c q r → same_class c p r.
Proof. intros H1 H2 k. etransitivity; [apply H2 | apply H1]. Qed.

Lemma same_class_collapse c p :
  c ≠ "collapsed" → c ≠ "expanded" → same_class c p (collapseSidebar d p).
Proof.
  intros H1 H2. unfold collapseSidebar.
  eapply same_class_trans;
    [| exact (proj1 (keeps_updateSidebarTooltips d c _))].
  intros k. rewrite classes_setItem.
  rewrite !elem_classes_add. tauto.
Qed.

Lemma same_class_expand c p :
  c ≠ "collapsed" → c ≠ "expanded" → same_class c p (expandSidebar d p).
Proof.
  intros H1 H2. unfold expandSidebar.
  eapply same_class_trans;
    [| exact (proj1 (keeps_removeSidebarTooltips d c _))].
  intros k. rewrite classes_setItem.
  rewrite !elem_classes_remove. tauto.
Qed.

Lemma same_class_toggleClick c p :
  c ≠ "collapsed" → c ≠ "expanded" → same_class c p (onToggleClick d p).
Proof.
  intros H1 H2. unfold onToggleClick.
  destruct (contains _ _);
    [apply same_class_expand | apply same_class_collapse]; assumption.
Qed.

Lemma same_class_handleResize c p :
  c ≠ "collapsed" → c ≠ "expanded" → same_class c p (handleResize d p).
Proof.
  intros H1 H2. unfold handleResize. destruct (_ <=? _); [| intros k; reflexivity].
  intros k. rewrite !elem_classes_remove. tauto.
Qed.

End ClassLists.

Section SidebarPreference.
Import Dom Sidebar SidebarEvents.
Variable d : Layout.

Lemma storage_updateTooltips p :
  localStorage (updateSidebarTooltips d p) = localStorage p.
Proof. apply (keeps_updateSidebarTooltips d "" p). Qed.

Lemma storage_setActive p :
  localStorage (setActiveSidebarItem d p) = localStorage p.
Proof. apply (keeps_setActiveSidebarItem d "" p). discriminate. Qed.

Lemma storage_handleResize p :
  localStorage (handleResize d p) = localStorage p.
Proof. unfold handleResize. destruct (_ <=? _); reflexivity. Qed.

(** X14: loading a page never rewrites what is stored: the load handler
    leaves [localStorage] as it found it, also on a narrow window, where
    it takes the collapsed state off the sidebar; and so does a resize.
    A preference saved on a wide window survives a visit on a narrow
    one. *)
Theorem onLoad_keeps_storage p :
  localStorage (onLoad d p) = localStorage p
  ∧ ∀ width, localStorage (onResize d width p) = localStorage p.
Proof.
  split;
    [| intros width; unfold onResize; rewrite storage_handleResize; reflexivity].
  unfold onLoad.
  assert (Hkeep : ∀ q, localStorage
            (if contains "collapsed" (classes q (sidebar d))
             then updateSidebarTooltips d q else q) = localStorage q).
  { intros q. destruct (contains _ _); [apply storage_updateTooltips | reflexivity]. }
  rewrite Hkeep, storage_setActive, storage_handleResize.
  case_bool_decide as Hstored; [| reflexivity].
  unfold collapseSidebar. rewrite storage_updateTooltips. simpl.
  apply insert_id. exact Hstored.
Qed.

(** X15: a click on the toggle button flips the sidebar and the stored
    value with it: the sidebar is collapsed after the click exactly when
    it was not before, "true" is stored exactly when it is collapsed, and
    a second click brings the first state back. *)
Theorem toggle_flips p :
  present d p →
  ("collapsed" ∈ classes (onToggleClick d p) (sidebar d)
   ↔ "collapsed" ∉ classes p (sidebar d))
  ∧ (getItem "sidebarCollapsed" (onToggleClick d p) = Some "true"
     ↔ "collapsed" ∈ classes (onToggleClick d p) (sidebar d))
  ∧ ("collapsed" ∈ classes (onToggleClick d (onToggleClick d p)) (sidebar d)
     ↔ "collapsed" ∈ classes p (sidebar d)).
Proof.
  intros [Hsb _].
  assert (Hflip : ∀ q, is_Some (elements q !! sidebar d) →
            ("collapsed" ∈ classes (onToggleClick d q) (sidebar d)
             ↔ "collapsed" ∉ classes q (sidebar d))).
  { intros q Hq. unfold onToggleClick, contains.
    case_bool_decide as Hin.
    - destruct (expandSidebar_spec d q) as [_ Hout]. tauto.
    - destruct (collapseSidebar_spec d q Hq) as (_ & Hc & _). tauto. }
  split; [apply Hflip, Hsb |]. split; [apply onToggleClick_tracks, Hsb |].
  rewrite Hflip by (apply same_elements_toggleClick, Hsb).
  rewrite (Hflip p Hsb).
  destruct (decide ("collapsed" ∈ classes p (sidebar d))); tauto.
Qed.

End SidebarPreference.

Section SidebarPreferenceSamples.
Import Dom Sidebar Examples.

Lemma toggle_flips_witness :
  let p := page0 ["sidebar"] ∅ 1280 in
  ("collapsed" ∈ classes (onToggleClick layout0 p) (sidebar layout0)
   ↔ "collapsed" ∉ classes p (sidebar layout0))
  ∧ (getItem "sidebarCollapsed" (onToggleClick layout0 p) = Some "true"
     ↔ "collapsed" ∈ classes (onToggleClick layout0 p) (sidebar layout0))
  ∧ ("collapsed"
       ∈ classes (onToggleClick layout0 (onToggleClick layout0 p))
           (sidebar layout0)
     ↔ "collapsed" ∈ classes p (sidebar layout0)).
Proof.
  apply (toggle_flips layout0 (page0 ["sidebar"] ∅ 1280)).
  split; eexists; reflexivity.
Defined.

End SidebarPreferenceSamples.

Section SidebarDrawer.
Import Dom Sidebar SidebarEvents.
Variable d : Layout.
Variable c : Controls.

Lemma elem_of_toggle (cls x : string) (l : list string) :
  x ∈ toggle cls l ↔ (x = cls ∧ cls ∉ l) ∨ (x ≠ cls ∧ x ∈ l).
Proof.
  unfold toggle. destruct (decide (cls ∈ l)) as [Hin | Hout].
  - rewrite elem_of_remove. tauto.
  - rewrite elem_of_add.
    destruct (decide (x = cls)) as [-> | Hne]; tauto.
Qed.

Lemma toggle_flip (cls : string) (id : nat) (p : Page) :
  is_Some (elements p !! id) →
  cls ∈ classes (classList_toggle id cls p) id ↔ cls ∉ classes p id.
Proof.
  intros [el Hel]. unfold classList_toggle. rewrite classes_update.
  rewrite decide_True by reflexivity. unfold classes. rewrite Hel. simpl.
  rewrite elem_of_toggle. tauto.
Qed.

Lemma toggle_other (cls x : string) (id k : nat) (p : Page) :
  x ≠ cls →
  x ∈ classes (classList_toggle id cls p) k ↔ x ∈ classes p k.
Proof.
  intros Hx. unfold classList_toggle. rewrite classes_update.
  destruct (decide (id = k)) as [<- | Hne]; [| reflexivity].
  unfold classes. destruct (elements p !! id); simpl; [| reflexivity].
  rewrite elem_of_toggle. tauto.
Qed.

Lemma found_same p q : same_elements p q → found d c p → found d c q.
Proof.
  intros Hsame [[Hsb Hmain] Hov]. split; [split |].
  - apply Hsame, Hsb.
  - apply Hsame, Hmain.
  - intros o Ho. apply Hsame, (Hov o Ho).
Qed.

Lemma in_step_same p q :
  same_class "mobile-open" p q → same_class "show" p q →
  in_step d c p → in_step d c q.
Proof.
  intros Hm Hs Hp o Ho. rewrite (Hm (sidebar d)), (Hs o). apply Hp, Ho.
Qed.

Lemma same_elements_mobileToggle p :
  same_elements p (onMobileToggleClick d c p).
Proof.
  unfold onMobileToggleClick.
  destruct (sidebarOverlay c);
    [eapply same_elements_trans |]; apply same_elements_update.
Qed.

Lemma in_step_mobileToggle p :
  found d c p → in_step d c p → in_step d c (onMobileToggleClick d c p).
Proof.
  intros [[Hsb _] Hov] Hp o Ho. unfold onMobileToggleClick. rewrite Ho.
  specialize (Hov o Ho). specialize (Hp o Ho).
  rewrite (toggle_other "show" "mobile-open") by discriminate.
  rewrite (toggle_flip "mobile-open" (sidebar d) p Hsb).
  rewrite (toggle_flip "show" o)
    by (unfold classList_toggle; apply is_Some_update, Hov).
  rewrite (toggle_other "mobile-open" "show") by discriminate.
  tauto.
Qed.

Lemma closed_after_remove o p :
  let q := classList_remove o "show"
             (classList_remove (sidebar d) "mobile-open" p) in
  ("mobile-open" ∉ classes q (sidebar d)) ∧ ("show" ∉ classes q o).
Proof.
  simpl. rewrite !elem_classes_remove. tauto.
Qed.

Lemma in_step_handle p e :
  found d c p → in_step d c p →
  found d c (handle d c p e) ∧ in_step d c (handle d c p e).
Proof.
  intros Hfound Hp. destruct e as [| | | width | ctrlKey key]; simpl.
  - destruct (sidebarToggle c); [| auto]. split.
    + eapply found_same; [apply same_elements_toggleClick | exact Hfound].
    + eapply in_step_same; [| | exact Hp];
        apply same_class_toggleClick; discriminate.
  - destruct (mobileSidebarToggle c); [| auto]. split.
    + eapply found_same; [apply same_elements_mobileToggle | exact Hfound].
    + apply in_step_mobileToggle; assumption.
  - destruct (sidebarOverlay c) as [o |] eqn:Ho; [| auto]. split.
    + eapply found_same; [| exact Hfound]. unfold onOverlayClick.
      eapply same_elements_trans; apply same_elements_update.
    + intros o' Ho'. rewrite Ho in Ho'. injection Ho' as <-.
      destruct (closed_after_remove o p) as [H1 H2].
      unfold onOverlayClick. tauto.
  - unfold onResize.
    set (q := mkPage (elements p) (localStorage p) width).
    assert (Hfq : found d c q) by exact Hfound.
    assert (Hpq : in_step d c q) by exact Hp.
    split.
    + eapply found_same; [apply same_elements_handleResize | exact Hfq].
    + eapply in_step_same; [| | exact Hpq];
        apply same_class_handleResize; discriminate.
  - unfold onKeydown.
    set (q := if ctrlKey && String.eqb key "b"
              then (if sidebarToggle c then onToggleClick d p else p) else p).
    assert (Hq : found d c q ∧ in_step d c q).
    { unfold q. destruct (ctrlKey && String.eqb key "b"); [| auto].
      destruct (sidebarToggle c); [| auto]. split.
      - eapply found_same; [apply same_elements_toggleClick | exact Hfound].
      - eapply in_step_same; [| | exact Hp];
          apply same_class_toggleClick; discriminate. }
    destruct Hq as [Hfq Hpq].
    destruct (String.eqb key "Escape" && (innerWidth q <=? 992)); [| auto].
    destruct (contains "mobile-open" (classes q (sidebar d))); [| auto].
    destruct (sidebarOverlay c) as [o |] eqn:Ho.
    + split.
      * eapply found_same; [| exact Hfq].
        eapply same_elements_trans; apply same_elements_update.
      * intros o' Ho'. rewrite Ho in Ho'. injection Ho' as <-.
        destruct (closed_after_remove o q) as [H1 H2]. tauto.
    + split.
      * eapply found_same; [apply same_elements_update | exact Hfq].
      * intros o' Ho'. rewrite Ho in Ho'. discriminate Ho'.
Qed.

(** X16: the mobile drawer and its overlay stay in step: if the sidebar
    carries [mobile-open] exactly when the overlay carries [show], that
    is still so after any sequence of clicks on the two toggle buttons
    and the overlay, key presses and resizes. *)
Theorem drawer_in_step events p :
  found d c p → in_step d c p →
  in_step d c (foldl (handle d c) p events).
Proof.
  revert p. induction events as [| e events IH]; intros p Hfound Hp; simpl;
    [exact Hp |].
  destruct (in_step_handle p e Hfound Hp) as [Hf' Hp'].
  apply IH; assumption.
Qed.

End SidebarDrawer.

Section SidebarDrawerSamples.
Import Dom Sidebar SidebarEvents Examples Samples.

Lemma drawer_in_step_witness :
  in_step layout0 controls0
    (foldl (handle layout0 controls0) drawer_page sidebar_events).
Proof.
  apply (drawer_in_step layout0 controls0 sidebar_events drawer_page).
  - split; [split; eexists; reflexivity |].
    intros o [= <-]. eexists. reflexivity.
  - intros o [= <-].
    assert (H1 : "mobile-open" ∉ classes drawer_page (sidebar layout0))
      by compute_done.
    assert (H2 : "show" ∉ classes drawer_page 3%nat) by compute_done.
    tauto.
Defined.

End SidebarDrawerSamples.

Section ActiveLink.
Import Dom Sidebar SidebarEvents.
Variable d : Layout.

Lemma setActive_foldl p :
  setActiveSidebarItem d p = foldl (mark_link d) p (navLinks d).
Proof. reflexivity. Qed.

Lemma same_elements_mark_link p link : same_elements p (mark_link d p link).
Proof.
  unfold mark_link.
  eapply same_elements_trans; [apply same_elements_update |].
  destruct (href d link); [| apply same_elements_refl].
  destruct (_ && _); [| apply same_elements_refl].
  eapply same_elements_trans; [apply same_elements_update |].
  destruct (dropdownToggle d link);
    [apply same_elements_update | apply same_elements_refl].
Qed.

Lemma active_after_mark p x link :
  is_Some (elements p !! link) →
  "active" ∈ classes (mark_link d p x) link
  ↔ (x ≠ link ∧ "active" ∈ classes p link)
    ∨ (leads_here d x = true ∧ (x = link ∨ dropdownToggle d x = Some link)).
Proof.
  intros Hel. unfold mark_link, leads_here.
  assert (Hel1 : is_Some (elements (classList_remove x "active" p) !! link))
    by (apply is_Some_update, Hel).
  destruct (href d x) as [h |].
  - destruct (negb (String.eqb h "") && startsWith (pathname d) h).
    + assert (Hel2 : is_Some (elements (classList_add x "active"
                                 (classList_remove x "active" p)) !! link))
        by (apply is_Some_update, Hel1).
      destruct (dropdownToggle d x) as [t |].
      * rewrite !elem_classes_add, elem_classes_remove.
        split.
        -- intros [[[H Hn] | (_ & Hx & _)] | (_ & Ht & _)].
           ++ left. split; [intros ->; apply Hn; auto | exact H].
           ++ right. auto.
           ++ right. split; [reflexivity |]. right. congruence.
        -- intros [[Hx H] | [_ [Hx | Ht]]].
           ++ left. left. split; [exact H | intros [_ E]; congruence].
           ++ left. right. auto.
           ++ right. injection Ht as ->. auto.
      * rewrite elem_classes_add, elem_classes_remove.
        split.
        -- intros [[H Hn] | (_ & Hx & _)].
           ++ left. split; [intros ->; apply Hn; auto | exact H].
           ++ right. auto.
        -- intros [[Hx H] | [_ [Hx | Ht]]].
           ++ left. split; [exact H | intros [_ E]; congruence].
           ++ right. auto.
           ++ discriminate Ht.
    + rewrite elem_classes_remove. split.
      * intros [H Hn]. left. split; [intros ->; apply Hn; auto | exact H].
      * intros [[Hx H] | [E _]]; [| discriminate E].
        split; [exact H | intros [_ E]; congruence].
  - rewrite elem_classes_remove. split.
    + intros [H Hn]. left. split; [intros ->; apply Hn; auto | exact H].
    + intros [[Hx H] | [E _]]; [| discriminate E].
      split; [exact H | intros [_ E]; congruence].
Qed.

Lemma active_kept links p link :
  is_Some (elements p !! link) →
  leads_here d link = true →
  link ∈ links ∨ "active" ∈ classes p link →
  "active" ∈ classes (foldl (mark_link d) p links) link.
Proof.
  revert p. induction links as [| x links IH]; intros p Hel Hlead Hor; simpl.
  - destruct Hor as [Hin | H]; [apply elem_of_nil in Hin; contradiction | exact H].
  - pose proof (same_elements_mark_link p x link) as Hsame.
    destruct (decide (x = link)) as [-> | Hne].
    + apply IH; [apply Hsame, Hel | exact Hlead |]. right.
      apply active_after_mark; [exact Hel |]. right. auto.
    + destruct Hor as [Hin | H].
      * apply elem_of_cons in Hin as [-> | Hin]; [congruence |].
        apply IH; [apply Hsame, Hel | exact Hlead | left; exact Hin].
      * apply IH; [apply Hsame, Hel | exact Hlead |]. right.
        apply active_after_mark; [exact Hel |]. left. auto.
Qed.

Lemma active_dropped links p link :
  is_Some (elements p !! link) →
  leads_here d link = false →
  (∀ x, x ∈ links → leads_here d x = true → dropdownToggle d x ≠ Some link) →
  link ∈ links ∨ "active" ∉ classes p link →
  "active" ∉ classes (foldl (mark_link d) p links) link.
Proof.
  revert p. induction links as [| x links IH]; intros p Hel Hlead Htoggle Hor;
    simpl.
  - destruct Hor as [Hin | H]; [apply elem_of_nil in Hin; contradiction | exact H].
  - pose proof (same_elements_mark_link p x link) as Hsame.
    assert (Hrest : ∀ y, y ∈ links → leads_here d y = true →
              dropdownToggle d y ≠ Some link).
    { intros y Hy. apply Htoggle. apply list_elem_of_further, Hy. }
    assert (Hx : leads_here d x = true → dropdownToggle d x ≠ Some link).
    { apply Htoggle. apply list_elem_of_here. }
    destruct (decide (x = link)) as [-> | Hne].
    + apply IH; [apply Hsame, Hel | exact Hlead | exact Hrest |]. right.
      rewrite (active_after_mark p link link Hel).
      intros [[Habs _] | [Habs _]]; [congruence | congruence].
    + destruct Hor as [Hin | H].
      * apply elem_of_cons in Hin as [-> | Hin]; [congruence |].
        apply IH; [apply Hsame, Hel | exact Hlead | exact Hrest | left; exact Hin].
      * apply IH; [apply Hsame, Hel | exact Hlead | exact Hrest |]. right.
        rewrite (active_after_mark p x link Hel).
        intros [[_ Habs] | [Hl [Habs | Habs]]];
          [exact (H Habs) | exact (Hne Habs) | exact (Hx Hl Habs)].
Qed.

(** X17: [setActiveSidebarItem] marks every link whose non-empty [href]
    the path starts with (so a link to "/" is always marked, and several
    links can be marked at once), and takes the mark off every other
    link, except a link that is the dropdown toggle of a marked one. *)
Theorem active_links_marked p link :
  link ∈ navLinks d →
  is_Some (elements p !! link) →
  (leads_here d link = true →
   "active" ∈ classes (setActiveSidebarItem d p) link)
  ∧ (leads_here d link = false →
     (∀ x, x ∈ navLinks d → leads_here d x = true →
           dropdownToggle d x ≠ Some link) →
     "active" ∉ classes (setActiveSidebarItem d p) link).
Proof.
  intros Hin Hel. rewrite setActive_foldl. split.
  - intros Hlead. apply active_kept; auto.
  - intros Hlead Htoggle. apply active_dropped; auto.
Qed.

End ActiveLink.

Section ActiveLinkSamples.
Import Dom Sidebar SidebarEvents Examples.

Lemma active_links_marked_witness :
  "active" ∈ classes (setActiveSidebarItem layout0 (page0 ["sidebar"] ∅ 1280))
    2%nat.
Proof.
  apply (active_links_marked layout0 (page0 ["sidebar"] ∅ 1280) 2%nat).
  - apply list_elem_of_here.
  - eexists. reflexivity.
  - reflexivity.
Defined.

End ActiveLinkSamples.

(** * Properties of the mobile drawer *)

Section MobileDrawer.
Import Dom Sidebar SidebarEvents.
Import MobileSidebar.
Variable d : MobileSidebar.Layout.

Lemma same_class_foldl {A} cls (f : Page → A → Page) (l : list A) :
  (∀ p x, same_class cls p (f p x)) → ∀ p, same_class cls p (foldl f p l).
Proof.
  intros Hf. induction l as [| x l IH]; intros p; simpl.
  - intros k. reflexivity.
  - eapply same_class_trans; [apply Hf | apply IH].
Qed.

Lemma setActive_same_class cls s :
  cls ≠ "active" →
  same_class cls (page s) (page (MobileSidebar.setActiveSidebarItem d s)).
Proof.
  intros Hne. unfold MobileSidebar.setActiveSidebarItem. simpl.
  apply same_class_foldl. intros p link k.
  destruct (MobileSidebar.href d link) as [h |].
  - destruct (_ && _).
    + rewrite elem_classes_add, elem_classes_remove. tauto.
    + rewrite elem_classes_remove. tauto.
  - rewrite elem_classes_remove. tauto.
Qed.

Lemma setActive_same_elements s :
  same_elements (page s) (page (MobileSidebar.setActiveSidebarItem d s)).
Proof.
  unfold MobileSidebar.setActiveSidebarItem. simpl.
  apply same_elements_foldl. intros p link.
  eapply same_elements_trans; [apply same_elements_update |].
  destruct (MobileSidebar.href d link); [| apply same_elements_refl].
  destruct (_ && _); [apply same_elements_update | apply same_elements_refl].
Qed.

Lemma close_shuts s : shut d (closeMobileSidebar d s).
Proof.
  unfold shut, closeMobileSidebar. cbn [page overflow].
  rewrite !elem_classes_remove. tauto.
Qed.

Lemma close_found s : found d s → found d (closeMobileSidebar d s).
Proof.
  unfold found, closeMobileSidebar. cbn [page]. unfold classList_remove.
  rewrite !is_Some_update. trivial.
Qed.

Lemma open_found s : found d s → found d (openMobileSidebar d s).
Proof.
  unfold found, openMobileSidebar. cbn [page]. unfold classList_add.
  rewrite !is_Some_update. trivial.
Qed.

Lemma open_outs s : found d s → out d (openMobileSidebar d s).
Proof.
  intros (Hsb & Hov & Hmain). unfold out, openMobileSidebar.
  cbn [page overflow].
  rewrite !elem_classes_add. unfold classList_add.
  rewrite !is_Some_update. tauto.
Qed.

Lemma steady_close s : found d s → steady d (closeMobileSidebar d s).
Proof.
  intros Hf. split; [apply close_found, Hf |].
  split; [left; apply close_shuts | intros _; apply close_shuts].
Qed.

Lemma steady_open s :
  found d s → isMobile s = true → steady d (openMobileSidebar d s).
Proof.
  intros Hf Hm. split; [apply open_found, Hf |].
  split; [right; apply open_outs, Hf |].
  unfold isMobile in Hm. apply Z.ltb_lt in Hm.
  unfold openMobileSidebar. simpl. intros Hwide. exfalso.
  unfold classList_add, update in Hwide. simpl in Hwide. lia.
Qed.

Lemma steady_handle s e :
  steady d s → steady d (MobileSidebar.handle d s e).
Proof.
  intros Hs. pose proof Hs as (Hf & Hstate & Hwide).
  destruct e as [| | | | width | key]; simpl.
  - destruct (sidebarToggle d && isMobile s) eqn:E; [| exact Hs].
    apply andb_true_iff in E as [_ E]. apply steady_open; assumption.
  - destruct (mobileSidebarClose d); [apply steady_close, Hf | exact Hs].
  - apply steady_close, Hf.
  - destruct (isMobile s); [apply steady_close, Hf | exact Hs].
  - set (s' := mkState (mkPage (elements (page s)) (localStorage (page s)) width)
                 (overflow s)).
    assert (Hf' : found d s') by exact Hf.
    destruct (isMobile s') eqn:E; simpl; [| apply steady_close, Hf'].
    split; [exact Hf' |]. split; [exact Hstate |].
    unfold isMobile in E. apply Z.ltb_lt in E. simpl in E. simpl. lia.
  - destruct (String.eqb key "Escape" && isMobile s);
      [apply steady_close, Hf | exact Hs].
Qed.

Lemma steady_load s :
  found d s → shut d s → steady d (MobileSidebar.onLoad d s).
Proof.
  intros (Hsb & Hov & Hmain) (H1 & H2 & H3 & H4). unfold MobileSidebar.onLoad.
  pose proof (setActive_same_elements s) as He.
  assert (Hshut : shut d (MobileSidebar.setActiveSidebarItem d s)).
  { repeat split.
    - intros H. apply H1.
      exact (proj1 (setActive_same_class "mobile-open" s ltac:(discriminate) _) H).
    - intros H. apply H2.
      exact (proj1 (setActive_same_class "show" s ltac:(discriminate) _) H).
    - intros H. apply H3.
      exact (proj1 (setActive_same_class "blurred" s ltac:(discriminate) _) H).
    - exact H4. }
  split; [| split; [left; exact Hshut | intros _; exact Hshut]].
  repeat split; apply He; assumption.
Qed.

Lemma remove_add_ne (c c' : string) (l : list string) :
  c ≠ c' → remove c (add c' l) = add c' (remove c l).
Proof.
  intros Hne. unfold add.
  destruct (decide (c' ∈ l)) as [Hin | Hout];
    destruct (decide (c' ∈ remove c l)) as [Hin' | Hout'].
  - reflexivity.
  - exfalso. apply Hout'. apply elem_of_remove. auto.
  - exfalso. apply Hout. apply elem_of_remove in Hin'. tauto.
  - unfold remove. rewrite filter_app.
    rewrite filter_cons_True by auto. reflexivity.
Qed.

Lemma lookup_update id f p k :
  elements (update id f p) !! k
  = if decide (id = k) then f <$> elements p !! k else elements p !! k.
Proof.
  unfold update. simpl. destruct (decide (id = k)) as [-> | Hne].
  - apply lookup_alter_eq.
  - apply lookup_alter_ne. exact Hne.
Qed.

Lemma page_eq p q :
  (∀ k, elements p !! k = elements q !! k) →
  localStorage p = localStorage q → innerWidth p = innerWidth q → p = q.
Proof.
  destruct p, q. simpl. intros He -> ->. f_equal. apply map_eq, He.
Qed.

(** X19: opening the drawer and closing it again is a round trip: on a
    page that has the three elements and the drawer shut,
    [closeMobileSidebar] after [openMobileSidebar] gives back the very
    page and scroll setting it started from, also when two of the three
    lookups find the same element. *)
Theorem open_close_round_trip s :
  found d s → shut d s →
  closeMobileSidebar d (openMobileSidebar d s) = s.
Proof.
  destruct s as [p ov]. intros _ (H1 & H2 & H3 & H4).
  unfold classes in H1, H2, H3. simpl in H1, H2, H3, H4. subst ov.
  unfold closeMobileSidebar, openMobileSidebar, classList_remove,
    classList_add. cbn [page]. f_equal.
  apply page_eq; [| reflexivity | reflexivity].
  intros k. rewrite !lookup_update.
  destruct (elements p !! k) as [el |] eqn:Hk;
    [| repeat (destruct (decide _)); reflexivity].
  assert (Hsb : MobileSidebar.sidebar d = k → "mobile-open" ∉ classList el).
  { intros E. rewrite E, Hk in H1. exact H1. }
  assert (Hov : MobileSidebar.sidebarOverlay d = k → "show" ∉ classList el).
  { intros E. rewrite E, Hk in H2. exact H2. }
  assert (Hmc : MobileSidebar.mainContent d = k → "blurred" ∉ classList el).
  { intros E. rewrite E, Hk in H3. exact H3. }
  clear H1 H2 H3 Hk. destruct el as [attrs l v html]. simpl in Hsb, Hov, Hmc.
  destruct (decide (MobileSidebar.sidebar d = k)) as [E1 | _];
    destruct (decide (MobileSidebar.sidebarOverlay d = k)) as [E2 | _];
    destruct (decide (MobileSidebar.mainContent d = k)) as [E3 | _];
    simpl; unfold with_classList; simpl; do 2 f_equal;
    repeat first
      [ rewrite (remove_add_ne "mobile-open" "show") by discriminate
      | rewrite (remove_add_ne "mobile-open" "blurred") by discriminate
      | rewrite (remove_add_ne "show" "blurred") by discriminate
      | rewrite (remove_add "mobile-open" l) by auto
      | rewrite (remove_add "show" l) by auto
      | rewrite (remove_add "blurred" l) by auto ];
    reflexivity.
Qed.

(** X18: the mobile drawer is never half open and never open on a
    desktop window: on a page served with the drawer shut, after the load
    handler and any sequence of clicks, key presses and resizes, the
    sidebar, the overlay, the blur of the main area and the scroll lock
    of the body are either all on or all off, and they are all off
    whenever the window is 992 pixels wide or more. *)
Theorem drawer_steady events s :
  found d s → shut d s →
  let s' := foldl (MobileSidebar.handle d) (MobileSidebar.onLoad d s) events in
  (shut d s' ∨ out d s') ∧ (992 ≤ innerWidth (page s') → shut d s').
Proof.
  intros Hf Hshut.
  assert (Hsteady : ∀ events s0, steady d s0 →
            steady d (foldl (MobileSidebar.handle d) s0 events)).
  { clear. induction events as [| e events IH]; intros s0 Hs0; simpl;
      [exact Hs0 |].
    apply IH, steady_handle, Hs0. }
  destruct (Hsteady events _ (steady_load s Hf Hshut)) as (_ & H1 & H2).
  split; assumption.
Qed.

End MobileDrawer.

Section MobileDrawerSamples.
Import Dom Sidebar MobileSidebar Samples.

Lemma drawer_state_found : found drawer_layout drawer_state.
Proof. repeat split; eexists; reflexivity. Qed.

Lemma drawer_state_shut : shut drawer_layout drawer_state.
Proof. repeat split; compute_done. Qed.

Lemma open_close_round_trip_witness :
  closeMobileSidebar drawer_layout (openMobileSidebar drawer_layout drawer_state)
  = drawer_state.
Proof.
  apply (open_close_round_trip drawer_layout drawer_state).
  - exact drawer_state_found.
  - exact drawer_state_shut.
Defined.

Lemma drawer_steady_witness :
  let s' :=
    foldl (MobileSidebar.handle drawer_layout)
      (MobileSidebar.onLoad drawer_layout drawer_state) drawer_events in
  (shut drawer_layout s' ∨ out drawer_layout s')
  ∧ (992 ≤ innerWidth (page s') → shut drawer_layout s').
Proof.
  apply (drawer_steady drawer_layout drawer_events drawer_state).
  - exact drawer_state_found.
  - exact drawer_state_shut.
Defined.

End MobileDrawerSamples.
